(** * swampdb: a document store over PostgreSQL jsonb tables

    A shallow embedding of [src/database.ts] (the current facade), of the
    earlier revision of the same module (the legacy facade, whose [get]
    returns [Document | null]) and of [src/postgres.ts].

    Layout of the development:
    - [Json], rows, parameters and errors: the values the facade handles;
    - [Async]: the state-and-exception monad standing for [async]/[await]
      with [try]/[catch];
    - [Postgres]: the execution layer as an interface ([pg.query]), with
      its instances: a tracing wrapper, a scripted layer replaying canned
      answers, [Pg], a reference model of PostgreSQL for the statements
      the facade issues, and [Racing], [Pg] shared with another session;
    - [Database] and [Legacy]: the two facades, written once against the
      interface;
    - the theorems. *)

From Stdlib Require Import ZArith Ascii.
From stdpp Require Import gmap strings list sorting.

Local Open Scope Z_scope.
Set Warnings "-register-all".

(** ** Values *)

(** JSON documents.  Numbers are restricted to integers; an object is the
    list of its members, read by [json_get] (first binding of a key). *)
Inductive Json : Type :=
  | JNull
  | JBool (b : bool)
  | JNum (n : Z)
  | JStr (s : string)
  | JArr (items : list Json)
  | JObj (members : list (string * Json)).

(** A column value of a result row, as the driver hands it to JavaScript:
    a number, a [Date] (as an instant), a parsed jsonb value or [null]. *)
Inductive Cell : Type :=
  | CNum (n : Z)
  | CDate (t : Z)
  | CJson (j : Json)
  | CNull.

(** A result row is a JavaScript object keyed by column name; the bound
    parameters of a statement are a JavaScript object keyed by name. *)
Abbreviation Row := (gmap string Cell).
Abbreviation Params := (gmap string Json).

(** What a [catch] clause can receive: an error object of the execution
    layer, with its optional [code], or the facade's own
    [MissingRecordError]. *)
Inductive Error : Type :=
  | ExecError (code : option string) (message : string)
  | MissingRecordError (collection : string) (criteria : Json).

(** [e.code]: [undefined] (here [None]) on an object without that field. *)
Definition error_code (e : Error) : option string :=
  match e with
  | ExecError code _ => code
  | MissingRecordError _ _ => None
  end.

(** ** src/postgres.ts *)

Module PostgresCodes.
Definition tableDoesNotExist : string := "42P01".
End PostgresCodes.

(** [e.code !== Postgres.tableDoesNotExist] *)
Definition code_differs (e : Error) (code : string) : bool :=
  match error_code e with
  | Some c => negb (String.eqb c code)
  | None => true
  end.

(** ** Asynchronous computations

    A promise-returning function is a function of the state of the world
    (the database behind the connection) to a settled outcome and the next
    state. *)

Inductive Result (A : Type) : Type :=
  | Ok (a : A)
  | Throw (e : Error).
Arguments Ok {A} a.
Arguments Throw {A} e.

Definition Async (W A : Type) : Type := W → Result A * W.

Definition ret {W A} (a : A) : Async W A := λ w, (Ok a, w).
Definition throw {W A} (e : Error) : Async W A := λ w, (Throw e, w).

Definition bind {W A B} (m : Async W A) (k : A → Async W B) : Async W B :=
  λ w, match m w with
       | (Ok a, w') => k a w'
       | (Throw e, w') => (Throw e, w')
       end.

Definition try_catch {W A} (body : Async W A) (handler : Error → Async W A)
    : Async W A :=
  λ w, match body w with
       | (Ok a, w') => (Ok a, w')
       | (Throw e, w') => handler e w'
       end.

Notation "'let*' x := 'await' m 'in' k" := (bind m (λ x, k))
  (at level 10, x name, m at level 100, k at level 200,
   format "'let*'  x  :=  'await'  m  'in'  '/' k").

(** The connection object [pg]: the one capability the facade consumes. *)
Class Postgres (W : Type) : Type :=
  pg_query : string → Params → Async W (list Row).

(** ** Statement text *)

(** The [sql] template tag, modelled as plain interpolation of the
    substitutions between the literal pieces. *)
Fixpoint sql (strings values : list string) : string :=
  match strings, values with
  | s :: strings', v :: values' => s +:+ v +:+ sql strings' values'
  | s :: _, [] => s
  | [], _ => ""
  end.

Definition dquote : string := String (ascii_of_nat 34) "".

(** One element of [props.map(prop => `...`)]. *)
Definition propColumn (prop : string) : string :=
  "
    '" +:+ prop +:+ "', body->'" +:+ prop +:+ "'
  ".

(** [propsToColumns]; [None] is the absent ([undefined]) argument, the only
    falsy value of the parameter's type. *)
Definition propsToColumns (props : option (list string)) : string :=
  match props with
  | None => "*"
  | Some props =>
      "jsonb_build_object(" +:+ String.concat ", " (propColumn <$> props)
        +:+ ") " +:+ dquote +:+ "body" +:+ dquote
  end.

(** ** The statements, src/database.ts

    Each function below is the template literal of the method of the same
    name, with its substitutions as arguments. *)

Module Statement.
Definition createCollection (collection : string) : string :=
  sql ["
      create table "; " (
        id serial primary key,
        body jsonb not null,
        created timestamptz not null default now(),
        updated timestamptz not null default now()
      );
      create index "; "_body_idx
      on "; "
      using gin (body jsonb_path_ops);
    "] [collection; collection; collection].

Definition tryGet (columns collection : string) : string :=
  sql ["
      select id, created, updated, "; "
      from "; "
      where id = $[id]
      limit 1
    "] [columns; collection].

Definition all (collection : string) : string :=
  sql ["
      select *
      from "; "
      order by id asc
    "] [collection].

Definition find (collection : string) : string :=
  sql ["
      select *
      from "; "
      where body @> $[criteria]
      order by id asc
    "] [collection].

Definition tryFindOne (collection : string) : string :=
  sql ["
      select *
      from "; "
      where body @> $[criteria]
      limit 1
    "] [collection].

Definition insert (collection : string) : string :=
  sql ["
      insert into "; " (body)
      values ($[body])
      returning *;
    "] [collection].

Definition update (collection : string) : string :=
  sql ["
      update "; "
      set body = ($[body]),
          updated = now()
      where id = $[id]
      returning *;
    "] [collection].

(** The legacy [get]. *)
Definition legacyGet (collection : string) : string :=
  sql ["
      select *
      from "; "
      where id = $[id]
      limit 1
    "] [collection].

(** The legacy [link].  Its select list, a member of [body] under an
    alias, is not among the forms the reference model below parses; [link]
    is studied on abstract execution layers. *)
Definition link (collection : string) : string :=
  sql ["
      select id, body->'name' " +:+ dquote +:+ "name" +:+ dquote +:+ "
      from "; "
      where id = $[id]
      limit 1
    "] [collection].
End Statement.

(** The parameter objects [{ id }], [{ criteria }], [{ body }] and
    [{ id, body }]. *)
Definition id_params (id : Z) : Params := {[ "id" := JNum id ]}.
Definition criteria_params (criteria : Json) : Params :=
  {[ "criteria" := criteria ]}.
Definition body_params (body : Json) : Params := {[ "body" := body ]}.
Definition id_body_params (id : Z) (body : Json) : Params :=
  <["id" := JNum id]> {[ "body" := body ]}.

(** [results.length ? results[0] : null] *)
Definition first_or_null (results : list Row) : option Row :=
  match results with
  | [] => None
  | r :: _ => Some r
  end.

(** ** The facade, src/database.ts *)

Module Database.
Section Facade.
Context {W : Type} {pg : Postgres W}.

Definition createCollection (collection : string) : Async W unit :=
  let* _ := await pg_query (Statement.createCollection collection) ∅ in
  ret ().

(** Creates collection on demand. *)
Definition changeCollection (collection : string) (params : Params)
    (query : string) : Async W (list Row) :=
  try_catch (pg_query query params) (λ e,
    if code_differs e PostgresCodes.tableDoesNotExist then throw e
    else
      let* _ := await createCollection collection in
      pg_query query params).

(** Recovers if collection does not yet exist. *)
Definition queryCollection (collection : string) (params : Params)
    (query : string) : Async W (list Row) :=
  try_catch (pg_query query params) (λ e,
    if code_differs e PostgresCodes.tableDoesNotExist then throw e
    else ret []).

Definition raw (params : Params) (query : string) : Async W (list Row) :=
  pg_query query params.

Definition tryGet (collection : string) (id : Z)
    (props : option (list string)) : Async W (option Row) :=
  let columns := propsToColumns props in
  let* results := await queryCollection collection (id_params id)
                          (Statement.tryGet columns collection) in
  ret (first_or_null results).

Definition get (collection : string) (id : Z)
    (props : option (list string)) : Async W Row :=
  let* result := await tryGet collection id props in
  match result with
  | None => throw (MissingRecordError collection (JObj [("id", JNum id)]))
  | Some r => ret r
  end.

Definition all (collection : string) : Async W (list Row) :=
  queryCollection collection ∅ (Statement.all collection).

Definition find (collection : string) (criteria : Json)
    : Async W (list Row) :=
  queryCollection collection (criteria_params criteria)
    (Statement.find collection).

Definition tryFindOne (collection : string) (criteria : Json)
    : Async W (option Row) :=
  let* results := await queryCollection collection
                          (criteria_params criteria)
                          (Statement.tryFindOne collection) in
  ret (first_or_null results).

Definition findOne (collection : string) (criteria : Json)
    : Async W Row :=
  let* result := await tryFindOne collection criteria in
  match result with
  | None => throw (MissingRecordError collection criteria)
  | Some r => ret r
  end.

(** [results[0]] of an empty array is [undefined], here [None]. *)
Definition insert (collection : string) (body : Json)
    : Async W (option Row) :=
  let* results := await changeCollection collection (body_params body)
                          (Statement.insert collection) in
  ret (head results).

Definition update (collection : string) (id : Z) (body : Json)
    : Async W (option Row) :=
  let* results := await raw (id_body_params id body)
                          (Statement.update collection) in
  ret (head results).
End Facade.
End Database.

(** ** The legacy facade (earlier revision of the module)

    Of the legacy module the claims need [get], which selects [*] and
    returns [Document | null], and its recovery wrapper. *)

Module Legacy.
Section Facade.
Context {W : Type} {pg : Postgres W}.

(** Recovers if collection does not yet exist. *)
Definition queryCollection (collection : string) (params : Params)
    (query : string) : Async W (list Row) :=
  try_catch (pg_query query params) (λ e,
    if code_differs e PostgresCodes.tableDoesNotExist then throw e
    else ret []).

Definition get (collection : string) (id : Z) : Async W (option Row) :=
  let* results := await queryCollection collection (id_params id)
                          (Statement.legacyGet collection) in
  ret (first_or_null results).

(** The rest of the legacy module.  Its statements for [all], [find],
    [findOne], [insert], [update] and [createCollection] are, character
    for character, those of the current module. *)

Definition createCollection (collection : string) : Async W unit :=
  let* _ := await pg_query (Statement.createCollection collection) ∅ in
  ret ().

(** Creates collection on demand. *)
Definition changeCollection (collection : string) (params : Params)
    (query : string) : Async W (list Row) :=
  try_catch (pg_query query params) (λ e,
    if code_differs e PostgresCodes.tableDoesNotExist then throw e
    else
      let* _ := await createCollection collection in
      pg_query query params).

Definition raw (params : Params) (query : string) : Async W (list Row) :=
  pg_query query params.

Definition all (collection : string) : Async W (list Row) :=
  queryCollection collection ∅ (Statement.all collection).

Definition find (collection : string) (criteria : Json)
    : Async W (list Row) :=
  queryCollection collection (criteria_params criteria)
    (Statement.find collection).

(** [findOne] returns [Document | null] here. *)
Definition findOne (collection : string) (criteria : Json)
    : Async W (option Row) :=
  let* results := await queryCollection collection
                          (criteria_params criteria)
                          (Statement.tryFindOne collection) in
  ret (first_or_null results).

Definition link (collection : string) (id : Z) : Async W (option Row) :=
  let* results := await queryCollection collection (id_params id)
                          (Statement.link collection) in
  ret (first_or_null results).

Definition insert (collection : string) (body : Json)
    : Async W (option Row) :=
  let* results := await changeCollection collection (body_params body)
                          (Statement.insert collection) in
  ret (head results).

Definition update (collection : string) (id : Z) (body : Json)
    : Async W (option Row) :=
  let* results := await raw (id_body_params id body)
                          (Statement.update collection) in
  ret (head results).
End Facade.
End Legacy.

(** ** Execution layers *)

(** A layer that records every statement sent through it, in order. *)
Module Traced.
Abbreviation Log := (list (string * Params)).

Definition query {W} (pg : Postgres W) : Postgres (W * Log) :=
  λ text params '(w, log),
    let '(r, w') := pg text params w in (r, (w', log ++ [(text, params)])).
End Traced.

(** A layer that answers the successive statements with canned outcomes,
    whatever they are: the answers of a database that other sessions
    change between two statements. *)
Module Scripted.
Definition query : Postgres (list (Result (list Row))) :=
  λ _ _ script,
    match script with
    | [] => (Throw (ExecError None "no answer"), [])
    | r :: script' => (r, script')
    end.
End Scripted.

(** ** A reference model of PostgreSQL

    [Pg.query] takes the statement text apart (lexer, then parser) and runs
    it on an in-memory database, for the statement forms the facade
    issues.  Named parameters [$[name]] are bound as values.  Table names
    are unquoted lower-case identifiers. *)
Module Pg.

(** *** Lexer *)

Inductive token : Type :=
  | TWord (w : string)
  | TStr (s : string)
  | TQuoted (s : string)
  | TParam (name : string)
  | TLParen | TRParen | TComma | TSemi | TStar | TEq
  | TContains
  | TArrow
  | TBad (c : ascii).

Global Instance token_eq_dec : EqDecision token.
Proof. solve_decision. Defined.

Inductive LexState : Type :=
  | Idle
  | InWord (acc : string)
  | InStr (acc : string)
  | InStrQuote (acc : string)
  | InQuoted (acc : string)
  | Dollar
  | InParam (acc : string)
  | Minus
  | At.

Definition is_space (c : ascii) : bool :=
  Ascii.eqb c " " || Ascii.eqb c "009" || Ascii.eqb c "010"
  || Ascii.eqb c "013".

Definition is_lower (c : ascii) : bool :=
  (97 <=? nat_of_ascii c)%nat && (nat_of_ascii c <=? 122)%nat.
Definition is_upper (c : ascii) : bool :=
  (65 <=? nat_of_ascii c)%nat && (nat_of_ascii c <=? 90)%nat.
Definition is_digit (c : ascii) : bool :=
  (48 <=? nat_of_ascii c)%nat && (nat_of_ascii c <=? 57)%nat.
Definition is_word (c : ascii) : bool :=
  is_lower c || is_upper c || is_digit c || Ascii.eqb c "_".

Definition snoc (acc : string) (c : ascii) : string := acc +:+ String c "".

(** One character read between tokens. *)
Definition lex_idle (c : ascii) : LexState * list token :=
  if is_space c then (Idle, [])
  else if is_word c then (InWord (String c ""), [])
  else if Ascii.eqb c "'" then (InStr "", [])
  else if Ascii.eqb c "034" then (InQuoted "", [])
  else if Ascii.eqb c "$" then (Dollar, [])
  else if Ascii.eqb c "-" then (Minus, [])
  else if Ascii.eqb c "@" then (At, [])
  else if Ascii.eqb c "(" then (Idle, [TLParen])
  else if Ascii.eqb c ")" then (Idle, [TRParen])
  else if Ascii.eqb c "," then (Idle, [TComma])
  else if Ascii.eqb c ";" then (Idle, [TSemi])
  else if Ascii.eqb c "*" then (Idle, [TStar])
  else if Ascii.eqb c "=" then (Idle, [TEq])
  else (Idle, [TBad c]).

Definition emit (t : token) (next : LexState * list token)
    : LexState * list token :=
  (next.1, t :: next.2).

(** A string constant ends at a quote that is not doubled; a doubled
    quote stands for one quote character inside the constant. *)
Definition lex_step (st : LexState) (c : ascii) : LexState * list token :=
  match st with
  | Idle => lex_idle c
  | InWord acc =>
      if is_word c then (InWord (snoc acc c), [])
      else emit (TWord acc) (lex_idle c)
  | InStr acc =>
      if Ascii.eqb c "'" then (InStrQuote acc, [])
      else (InStr (snoc acc c), [])
  | InStrQuote acc =>
      if Ascii.eqb c "'" then (InStr (snoc acc c), [])
      else emit (TStr acc) (lex_idle c)
  | InQuoted acc =>
      if Ascii.eqb c "034" then (Idle, [TQuoted acc])
      else (InQuoted (snoc acc c), [])
  | Dollar =>
      if Ascii.eqb c "[" then (InParam "", [])
      else emit (TBad "$") (lex_idle c)
  | InParam acc =>
      if Ascii.eqb c "]" then (Idle, [TParam acc])
      else (InParam (snoc acc c), [])
  | Minus =>
      if Ascii.eqb c ">" then (Idle, [TArrow])
      else emit (TBad "-") (lex_idle c)
  | At =>
      if Ascii.eqb c ">" then (Idle, [TContains])
      else emit (TBad "@") (lex_idle c)
  end.

Fixpoint lex_run (st : LexState) (text : string) : LexState * list token :=
  match text with
  | EmptyString => (st, [])
  | String c text' =>
      let '(st1, out1) := lex_step st c in
      let '(st2, out2) := lex_run st1 text' in
      (st2, out1 ++ out2)
  end.

(** At the end of the text an open word or string constant is closed; an
    unterminated constant, parameter or operator is an error token. *)
Definition lex_finish (st : LexState) : list token :=
  match st with
  | Idle => []
  | InWord acc => [TWord acc]
  | InStrQuote acc => [TStr acc]
  | InStr _ => [TBad "'"]
  | InQuoted _ => [TBad "034"]
  | Dollar | InParam _ => [TBad "$"]
  | Minus => [TBad "-"]
  | At => [TBad "@"]
  end.

Definition lex (text : string) : list token :=
  let '(st, out) := lex_run Idle text in out ++ lex_finish st.

(** *** Syntax *)

Inductive Expr : Type :=
  | EStr (s : string)
  | ECol (column : string)
  | EField (column key : string).

Inductive Item : Type :=
  | IStar
  | ICol (column : string)
  | ICall (function : string) (args : list Expr) (alias : option string).

Inductive Cond : Type :=
  | CIdEq (param : string)
  | CContains (param : string).

Record Select : Type := {
  sel_items : list Item;
  sel_table : string;
  sel_where : option Cond;
  sel_order : bool;
  sel_limit : option nat
}.

Inductive Stmt : Type :=
  | SSelect (q : Select)
  | SInsert (table param : string)
  | SUpdate (table body_param id_param : string)
  | SCreateTable (table : string)
  | SCreateIndex (index table : string).

(** Key words that cannot name a table. *)
Definition reserved : list string :=
  ["all"; "analyse"; "analyze"; "and"; "any"; "array"; "as"; "asc";
   "asymmetric"; "authorization"; "binary"; "both"; "case"; "cast";
   "check"; "collate"; "collation"; "column"; "concurrently";
   "constraint"; "create"; "cross"; "current_catalog"; "current_date";
   "current_role"; "current_schema"; "current_time";
   "current_timestamp"; "current_user"; "default"; "deferrable"; "desc";
   "distinct"; "do"; "else"; "end"; "except"; "false"; "fetch"; "for";
   "foreign"; "freeze"; "from"; "full"; "grant"; "group"; "having";
   "ilike"; "in"; "initially"; "inner"; "intersect"; "into"; "is";
   "isnull"; "join"; "lateral"; "leading"; "left"; "like"; "limit";
   "localtime"; "localtimestamp"; "natural"; "not"; "notnull"; "null";
   "offset"; "on"; "only"; "or"; "order"; "outer"; "overlaps";
   "placing"; "primary"; "references"; "returning"; "right"; "select";
   "session_user"; "similar"; "some"; "symmetric"; "system_user";
   "table"; "tablesample"; "then"; "to"; "trailing"; "true"; "union";
   "unique"; "user"; "using"; "variadic"; "verbose"; "when"; "where";
   "window"; "with"].

(** A word that can stand where a table or index name is expected. *)
Definition is_name (w : string) : bool :=
  match w with
  | EmptyString => false
  | String c _ => negb (is_digit c) && bool_decide (w ∉ reserved)
  end.

(** *** Parser *)

(** The select list is read by an automaton over the tokens. *)
Inductive ItemMode : Type :=
  | MItem
  | MWord (w : string)
  | MAfterItem
  | MArgs (f : string) (args : list Expr) (first : bool)
  | MArgWord (f : string) (args : list Expr) (c : string)
  | MArrow (f : string) (args : list Expr) (c : string)
  | MAfterArg (f : string) (args : list Expr)
  | MAfterCall (f : string) (args : list Expr).

Definition is_from (w : string) : bool := String.eqb w "from".

(** Returns the items and the tokens after [from]. *)
Fixpoint parse_items (m : ItemMode) (items : list Item)
    (toks : list token) : option (list Item * list token) :=
  match toks with
  | [] => None
  | t :: rest =>
      match m, t with
      | MItem, TStar => parse_items MAfterItem (items ++ [IStar]) rest
      | MItem, TWord w =>
          if is_from w then None else parse_items (MWord w) items rest
      | MWord w, TLParen => parse_items (MArgs w [] true) items rest
      | MWord w, TComma => parse_items MItem (items ++ [ICol w]) rest
      | MWord w, TWord k =>
          if is_from k then Some (items ++ [ICol w], rest) else None
      | MAfterItem, TComma => parse_items MItem items rest
      | MAfterItem, TWord k =>
          if is_from k then Some (items, rest) else None
      | MArgs f args true, TRParen =>
          parse_items (MAfterCall f args) items rest
      | MArgs f args _, TStr s =>
          parse_items (MAfterArg f (args ++ [EStr s])) items rest
      | MArgs f args _, TWord c =>
          parse_items (MArgWord f args c) items rest
      | MArgWord f args c, TArrow =>
          parse_items (MArrow f args c) items rest
      | MArgWord f args c, TComma =>
          parse_items (MArgs f (args ++ [ECol c]) false) items rest
      | MArgWord f args c, TRParen =>
          parse_items (MAfterCall f (args ++ [ECol c])) items rest
      | MArrow f args c, TStr k =>
          parse_items (MAfterArg f (args ++ [EField c k])) items rest
      | MAfterArg f args, TComma =>
          parse_items (MArgs f args false) items rest
      | MAfterArg f args, TRParen =>
          parse_items (MAfterCall f args) items rest
      | MAfterCall f args, TQuoted a =>
          parse_items MAfterItem (items ++ [ICall f args (Some a)]) rest
      | MAfterCall f args, TComma =>
          parse_items MItem (items ++ [ICall f args None]) rest
      | MAfterCall f args, TWord k =>
          if is_from k then Some (items ++ [ICall f args None], rest)
          else None
      | _, _ => None
      end
  end.

Definition is_kw (t : token) (w : string) : bool :=
  match t with TWord w' => String.eqb w' w | _ => false end.

Definition parse_where (toks : list token) : option Cond * list token :=
  match toks with
  | TWord w :: TWord c :: TEq :: TParam p :: rest =>
      if String.eqb w "where" && String.eqb c "id"
      then (Some (CIdEq p), rest) else (None, toks)
  | TWord w :: TWord c :: TContains :: TParam p :: rest =>
      if String.eqb w "where" && String.eqb c "body"
      then (Some (CContains p), rest) else (None, toks)
  | _ => (None, toks)
  end.

Definition parse_order (toks : list token) : bool * list token :=
  match toks with
  | TWord o :: TWord b :: TWord c :: TWord d :: rest =>
      if String.eqb o "order" && String.eqb b "by" && String.eqb c "id"
         && String.eqb d "asc"
      then (true, rest) else (false, toks)
  | _ => (false, toks)
  end.

(** A row count: a word made of decimal digits. *)
Definition digit_value (c : ascii) : nat := (nat_of_ascii c - 48)%nat.
Fixpoint parse_nat_from (acc : nat) (w : string) : option nat :=
  match w with
  | EmptyString => Some acc
  | String c w' =>
      if is_digit c then parse_nat_from (10 * acc + digit_value c)%nat w'
      else None
  end.
Definition parse_nat (w : string) : option nat :=
  match w with
  | EmptyString => None
  | _ => parse_nat_from 0%nat w
  end.

Definition parse_limit (toks : list token)
    : option (option nat * list token) :=
  match toks with
  | TWord l :: TWord n :: rest =>
      if String.eqb l "limit"
      then n' ← parse_nat n; Some (Some n', rest)
      else Some (None, toks)
  | _ => Some (None, toks)
  end.

Definition parse_select (toks : list token) : option Stmt :=
  '(items, toks) ← parse_items MItem [] toks;
  match toks with
  | TWord t :: toks =>
      if is_name t then
        let '(cond, toks) := parse_where toks in
        let '(order, toks) := parse_order toks in
        '(limit, toks) ← parse_limit toks;
        match toks with
        | [] => Some (SSelect {| sel_items := items; sel_table := t;
                                 sel_where := cond; sel_order := order;
                                 sel_limit := limit |})
        | _ => None
        end
      else None
  | _ => None
  end.

(** The other statements have one fixed form each, with holes for the
    names and the parameters. *)
Inductive Pat : Type :=
  | K (w : string)
  | T (t : token)
  | Name
  | Param.

Fixpoint match_pattern (pat : list Pat) (toks : list token)
    : option (list string) :=
  match pat, toks with
  | [], [] => Some []
  | K w :: pat', TWord w' :: toks' =>
      if String.eqb w' w then match_pattern pat' toks' else None
  | T t :: pat', t' :: toks' =>
      if bool_decide (t' = t) then match_pattern pat' toks' else None
  | Name :: pat', TWord w :: toks' =>
      if is_name w then cons w <$> match_pattern pat' toks' else None
  | Param :: pat', TParam p :: toks' => cons p <$> match_pattern pat' toks'
  | _, _ => None
  end.

Definition insert_form : list Pat :=
  [K "into"; Name; T TLParen; K "body"; T TRParen; K "values";
   T TLParen; Param; T TRParen; K "returning"; T TStar].

Definition update_form : list Pat :=
  [Name; K "set"; K "body"; T TEq; T TLParen; Param; T TRParen;
   T TComma; K "updated"; T TEq; K "now"; T TLParen; T TRParen;
   K "where"; K "id"; T TEq; Param; K "returning"; T TStar].

Definition create_table_form : list Pat :=
  [K "table"; Name; T TLParen;
   K "id"; K "serial"; K "primary"; K "key"; T TComma;
   K "body"; K "jsonb"; K "not"; K "null"; T TComma;
   K "created"; K "timestamptz"; K "not"; K "null"; K "default";
     K "now"; T TLParen; T TRParen; T TComma;
   K "updated"; K "timestamptz"; K "not"; K "null"; K "default";
     K "now"; T TLParen; T TRParen;
   T TRParen].

Definition create_index_form : list Pat :=
  [K "index"; Name; K "on"; Name; K "using"; K "gin"; T TLParen;
   K "body"; K "jsonb_path_ops"; T TRParen].

Definition parse_stmt (toks : list token) : option Stmt :=
  match toks with
  | TWord w :: rest =>
      if String.eqb w "select" then parse_select rest
      else if String.eqb w "insert" then
        match match_pattern insert_form rest with
        | Some [t; p] => Some (SInsert t p)
        | _ => None
        end
      else if String.eqb w "update" then
        match match_pattern update_form rest with
        | Some [t; b; i] => Some (SUpdate t b i)
        | _ => None
        end
      else if String.eqb w "create" then
        match match_pattern create_table_form rest with
        | Some [t] => Some (SCreateTable t)
        | _ =>
            match match_pattern create_index_form rest with
            | Some [i; t] => Some (SCreateIndex i t)
            | _ => None
            end
        end
      else None
  | _ => None
  end.

(** The statements of a text, separated by [;]. *)
Fixpoint split_statements (cur : list token) (toks : list token)
    : list (list token) :=
  match toks with
  | [] => [cur]
  | TSemi :: rest => cur :: split_statements [] rest
  | t :: rest => split_statements (cur ++ [t]) rest
  end.

Definition parse (text : string) : option (list Stmt) :=
  mapM parse_stmt
    (List.filter (λ toks, match toks with [] => false | _ => true end)
       (split_statements [] (lex text))).

(** *** Stored data *)

Record Doc : Type := {
  doc_id : Z;
  doc_body : Json;
  doc_created : Z;
  doc_updated : Z
}.

(** A table created by the facade: its rows in storage order (which no
    statement controls) and the next value of the [serial] column. *)
Record Table : Type := {
  rows : list Doc;
  next_id : Z
}.

Record Db : Type := {
  tables : gmap string Table;
  indexes : gmap string string;
  clock : Z
}.

(** *** jsonb *)

Definition json_get (j : Json) (key : string) : option Json :=
  match j with
  | JObj members => (list_to_map members : gmap string Json) !! key
  | _ => None
  end.

Definition scalar_eqb (a b : Json) : bool :=
  match a, b with
  | JNull, JNull => true
  | JBool x, JBool y => Bool.eqb x y
  | JNum x, JNum y => Z.eqb x y
  | JStr x, JStr y => String.eqb x y
  | _, _ => false
  end.

(** [contained b a]: the value [b] is contained in [a], below the top
    level.  Objects: every member of [b] has a counterpart in [a] under
    the same key that contains it.  Arrays: every element of [b] is
    contained in some element of [a].  Scalars: equality. *)
Fixpoint contained (b a : Json) {struct b} : bool :=
  match b with
  | JObj mb =>
      match a with
      | JObj _ =>
          forallb (λ kv, match json_get a kv.1 with
                         | Some va => contained kv.2 va
                         | None => false
                         end) mb
      | _ => false
      end
  | JArr lb =>
      match a with
      | JArr la => forallb (λ vb, existsb (contained vb) la) lb
      | _ => false
      end
  | _ => scalar_eqb a b
  end.

(** [a @> b].  At the top level an array also contains a scalar that is
    one of its elements. *)
Definition jsonb_contains (a b : Json) : bool :=
  match b, a with
  | (JObj _ | JArr _), _ => contained b a
  | _, JArr la => existsb (scalar_eqb b) la
  | _, _ => scalar_eqb a b
  end.

(** [jsonb_build_object]: keys are unique, the last value given for a
    key stays. *)
Definition build_object (pairs : list (string * Json)) : Json :=
  JObj (map_to_list
          (foldl (λ m kv, <[kv.1 := kv.2]> m) (∅ : gmap string Json) pairs)).

(** *** Evaluation *)

Definition sql_error (code message : string) : Error :=
  ExecError (Some code) message.

Definition undefined_table : Error :=
  sql_error "42P01" "relation does not exist".
Definition duplicate_table : Error :=
  sql_error "42P07" "relation already exists".
Definition syntax_error : Error :=
  sql_error "42601" "syntax error".
Definition undefined_column : Error :=
  sql_error "42703" "column does not exist".
Definition undefined_function : Error :=
  sql_error "42883" "function or operator does not exist".
Definition invalid_parameter : Error :=
  sql_error "22023" "argument list must have even number of elements".
Definition not_null_violation : Error :=
  sql_error "23502" "null value in column violates not-null constraint".
Definition invalid_text : Error :=
  sql_error "22P02" "invalid input syntax".
Definition missing_property : Error :=
  ExecError None "Property doesn't exist.".

(** How a bound JavaScript value reaches the statement: a number as an
    integer, an object as a jsonb value, [null] as NULL.  Bindings of
    other kinds (strings, booleans, arrays) are outside the model, which
    refuses them where they are used; PostgreSQL accepts some of them (a
    string that holds JSON text is read as jsonb) and refuses the others
    with various codes. *)
Inductive SqlValue : Type :=
  | SqlInt (n : Z)
  | SqlJsonb (j : Json)
  | SqlNull
  | SqlOther.

Definition bound (params : Params) (name : string) : Result SqlValue :=
  match params !! name with
  | None => Throw missing_property
  | Some (JNum n) => Ok (SqlInt n)
  | Some (JObj members) => Ok (SqlJsonb (JObj members))
  | Some JNull => Ok SqlNull
  | Some _ => Ok SqlOther
  end.

Definition doc_row (d : Doc) : list (string * Cell) :=
  [("id", CNum (doc_id d)); ("body", CJson (doc_body d));
   ("created", CDate (doc_created d)); ("updated", CDate (doc_updated d))].

(** The object the driver builds for a row: columns are assigned in
    order, a later column of the same name overwrites an earlier one. *)
Definition to_row (columns : list (string * Cell)) : Row :=
  foldl (λ r kv, <[kv.1 := kv.2]> r) ∅ columns.

Definition eval_column (d : Doc) (c : string) : Result Cell :=
  match list_to_map (M := gmap string Cell) (doc_row d) !! c with
  | Some v => Ok v
  | None => Throw undefined_column
  end.

(** The arguments of [jsonb_build_object], two by two.  A key is a text
    constant; a value is a text constant or a member of [body] (NULL, so
    JSON null, when [body] has no such member). *)
Fixpoint eval_pairs (d : Doc) (args : list Expr)
    : Result (list (string * Json)) :=
  match args with
  | [] => Ok []
  | [_] => Throw invalid_parameter
  | EStr k :: v :: args' =>
      match (match v with
             | EStr s => Ok (JStr s)
             | EField c key =>
                 if String.eqb c "body"
                 then Ok (default JNull (json_get (doc_body d) key))
                 else Throw undefined_function
             | ECol c =>
                 if String.eqb c "body" then Ok (doc_body d)
                 else Throw undefined_function
             end), eval_pairs d args' with
      | Ok j, Ok rest => Ok ((k, j) :: rest)
      | Throw e, _ => Throw e
      | _, Throw e => Throw e
      end
  | _ :: _ :: _ => Throw undefined_function
  end.

Definition eval_item (d : Doc) (i : Item)
    : Result (list (string * Cell)) :=
  match i with
  | IStar => Ok (doc_row d)
  | ICol c =>
      match eval_column d c with
      | Ok v => Ok [(c, v)]
      | Throw e => Throw e
      end
  | ICall f args alias =>
      if String.eqb f "jsonb_build_object" then
        match eval_pairs d args with
        | Ok pairs => Ok [(default f alias, CJson (build_object pairs))]
        | Throw e => Throw e
        end
      else Throw undefined_function
  end.

Fixpoint eval_items (d : Doc) (items : list Item)
    : Result (list (string * Cell)) :=
  match items with
  | [] => Ok []
  | i :: items' =>
      match eval_item d i, eval_items d items' with
      | Ok cs, Ok rest => Ok (cs ++ rest)
      | Throw e, _ => Throw e
      | _, Throw e => Throw e
      end
  end.

Fixpoint project (items : list Item) (ds : list Doc) : Result (list Row) :=
  match ds with
  | [] => Ok []
  | d :: ds' =>
      match eval_items d items, project items ds' with
      | Ok cs, Ok rest => Ok (to_row cs :: rest)
      | Throw e, _ => Throw e
      | _, Throw e => Throw e
      end
  end.

Definition eval_where (cond : option Cond) (params : Params)
    : Result (Doc → bool) :=
  match cond with
  | None => Ok (λ _, true)
  | Some (CIdEq p) =>
      match bound params p with
      | Ok (SqlInt n) => Ok (λ d, Z.eqb (doc_id d) n)
      | Ok SqlNull => Ok (λ _, false)
      | Ok _ => Throw invalid_text
      | Throw e => Throw e
      end
  | Some (CContains p) =>
      match bound params p with
      | Ok (SqlJsonb j) => Ok (λ d, jsonb_contains (doc_body d) j)
      | Ok SqlNull => Ok (λ _, false)
      | Ok (SqlInt _) => Throw undefined_function
      | Ok _ => Throw invalid_text
      | Throw e => Throw e
      end
  end.

Definition id_le (a b : Doc) : Prop := doc_id a ≤ doc_id b.
Global Instance id_le_dec a b : Decision (id_le a b).
Proof. unfold id_le. apply _. Defined.

Definition exec_select (q : Select) (params : Params) (db : Db)
    : Result (list Row) :=
  match tables db !! sel_table q with
  | None => Throw undefined_table
  | Some t =>
      match eval_where (sel_where q) params with
      | Throw e => Throw e
      | Ok keep =>
          let ds := List.filter keep (rows t) in
          let ds := if sel_order q then merge_sort id_le ds else ds in
          let ds := match sel_limit q with
                    | Some n => take n ds
                    | None => ds
                    end in
          project (sel_items q) ds
      end
  end.

Definition set_table (name : string) (t : Table) (db : Db) : Db :=
  {| tables := <[name := t]> (tables db);
     indexes := indexes db; clock := clock db |}.

(** [insert into t (body) values ($[p]) returning *].  The id comes from
    the table's counter; the model lets the counter grow without bound
    and leaves it alone when the statement fails. *)
Definition exec_insert (table param : string) (params : Params) (db : Db)
    : Result (list Row) * Db :=
  match tables db !! table with
  | None => (Throw undefined_table, db)
  | Some t =>
      match bound params param with
      | Ok (SqlJsonb body) =>
          let d := {| doc_id := next_id t; doc_body := body;
                      doc_created := clock db;
                      doc_updated := clock db |} in
          (Ok [to_row (doc_row d)],
           set_table table {| rows := rows t ++ [d];
                              next_id := next_id t + 1 |} db)
      | Ok SqlNull => (Throw not_null_violation, db)
      | Ok _ => (Throw invalid_text, db)
      | Throw e => (Throw e, db)
      end
  end.

Definition update_doc (id : Z) (body : Json) (now : Z) (d : Doc) : Doc :=
  if Z.eqb (doc_id d) id
  then {| doc_id := doc_id d; doc_body := body;
          doc_created := doc_created d; doc_updated := now |}
  else d.

(** [update t set body = ($[b]), updated = now() where id = $[i]
    returning *].  The model rewrites the row where it stands. *)
Definition exec_update (table body_param id_param : string)
    (params : Params) (db : Db) : Result (list Row) * Db :=
  match tables db !! table with
  | None => (Throw undefined_table, db)
  | Some t =>
      match bound params body_param, bound params id_param with
      | Ok (SqlJsonb body), Ok (SqlInt id) =>
          let rows' := update_doc id body (clock db) <$> rows t in
          (Ok (to_row ∘ doc_row <$>
                 List.filter (λ d, Z.eqb (doc_id d) id) rows'),
           set_table table {| rows := rows'; next_id := next_id t |} db)
      | Ok SqlNull, Ok (SqlInt id) =>
          if existsb (λ d, Z.eqb (doc_id d) id) (rows t)
          then (Throw not_null_violation, db)
          else (Ok [], db)
      | Ok (SqlJsonb _ | SqlNull), Ok SqlNull => (Ok [], db)
      | Throw e, _ => (Throw e, db)
      | _, Throw e => (Throw e, db)
      | _, _ => (Throw invalid_text, db)
      end
  end.

Definition relation_exists (name : string) (db : Db) : bool :=
  bool_decide (is_Some (tables db !! name))
  || bool_decide (is_Some (indexes db !! name)).

Definition exec_create_table (table : string) (db : Db)
    : Result (list Row) * Db :=
  if relation_exists table db then (Throw duplicate_table, db)
  else (Ok [], set_table table {| rows := []; next_id := 1 |} db).

Definition exec_create_index (index table : string) (db : Db)
    : Result (list Row) * Db :=
  match tables db !! table with
  | None => (Throw undefined_table, db)
  | Some _ =>
      if relation_exists index db then (Throw duplicate_table, db)
      else (Ok [], {| tables := tables db;
                      indexes := <[index := table]> (indexes db);
                      clock := clock db |})
  end.

Definition exec (s : Stmt) (params : Params) (db : Db)
    : Result (list Row) * Db :=
  match s with
  | SSelect q => (exec_select q params db, db)
  | SInsert t p => exec_insert t p params db
  | SUpdate t b i => exec_update t b i params db
  | SCreateTable t => exec_create_table t db
  | SCreateIndex i t => exec_create_index i t db
  end.

(** The statements of one text run in order; the rows of the last one
    are the result. *)
Fixpoint exec_all (stmts : list Stmt) (params : Params)
    (last : list Row) (db : Db) : Result (list Row) * Db :=
  match stmts with
  | [] => (Ok last, db)
  | s :: stmts' =>
      match exec s params db with
      | (Ok rows, db') => exec_all stmts' params rows db'
      | (Throw e, db') => (Throw e, db')
      end
  end.

(** One call of [pg.query]: the text is one transaction, undone as a
    whole when a statement fails. *)
Definition query : Postgres Db :=
  λ text params db,
    match parse text with
    | None => (Throw syntax_error, db)
    | Some stmts =>
        match exec_all stmts params [] db with
        | (Ok rows, db') => (Ok rows, db')
        | (Throw e, _) => (Throw e, db)
        end
    end.

Definition empty : Db := {| tables := ∅; indexes := ∅; clock := 0 |}.

(** The object returned for a stored document by [select *] and by
    [returning *]. *)
Definition document (d : Doc) : Row := to_row (doc_row d).

(** *** Names the model covers *)

Fixpoint all_chars (P : ascii → bool) (s : string) : bool :=
  match s with
  | EmptyString => true
  | String c s' => P c && all_chars P s'
  end.

Definition ident_char (c : ascii) : bool :=
  is_lower c || is_digit c || Ascii.eqb c "_".

(** A collection name that is a plain lower-case identifier. *)
Definition identifier (w : string) : bool :=
  is_name w && all_chars ident_char w.

(** A field name without the single-quote character. *)
Definition quote_free (p : string) : bool :=
  all_chars (λ c, negb (Ascii.eqb c "'")) p.

Fixpoint has_suffix (suffix s : string) : bool :=
  String.eqb s suffix
  || match s with
     | EmptyString => false
     | String _ s' => has_suffix suffix s'
     end.

(** *** Inputs on which the model stands for PostgreSQL

    The model is a model of the statements the facade issues, on the
    tables and indexes the facade creates.  It leaves out parts of
    PostgreSQL, of the driver and of JavaScript:
    - PostgreSQL also holds catalogues, sequences and key indexes, all
      with an underscore in their names, and answers a statement on one
      of them, or on an index, with other errors than 42P01; it cuts an
      identifier at 63 bytes; some key words that may name a table are
      read differently in some positions;
    - a function takes at most 100 arguments;
    - a jsonb value is stored in a normal form: the keys of an object
      unique and ordered by length, then bytewise; a string with the
      character of code 0 is refused; JavaScript lists keys made of
      digits first and holds integers exactly up to 2^53 - 1;
    - the driver replaces a dollar sign followed by a bracket wherever
      it stands in the text, inside a string constant too, and sends a
      bound string as a constant that PostgreSQL may read as jsonb;
    - a [serial] column ends at 2^31 - 1, and a value taken from it by a
      statement that fails is not given back;
    - an update does not keep the place of a row in storage.
    The predicates below name the inputs on which none of this shows.
    The statements about stored documents that depend on one of these
    points are made for such inputs only, and say nothing of the place of
    a row in storage after an update nor of the serial counter after a
    failure. *)

Definition name_char (c : ascii) : bool := is_lower c || is_digit c.

(** The key words of SQL, of every class, that have no underscore. *)
Definition key_words : list string :=
  ["abort"; "absent"; "absolute"; "access"; "action"; "add"; "admin";
   "after"; "aggregate"; "all"; "also"; "alter"; "always"; "analyse";
   "analyze"; "and"; "any"; "array"; "as"; "asc"; "asensitive"; "assertion";
   "assignment"; "asymmetric"; "at"; "atomic"; "attach"; "attribute";
   "authorization"; "backward"; "before"; "begin"; "between"; "bigint";
   "binary"; "bit"; "boolean"; "both"; "breadth"; "by"; "cache"; "call";
   "called"; "cascade"; "cascaded"; "case"; "cast"; "catalog"; "chain";
   "char"; "character"; "characteristics"; "check"; "checkpoint"; "class";
   "close"; "cluster"; "coalesce"; "collate"; "collation"; "column";
   "columns"; "comment"; "comments"; "commit"; "committed"; "compression";
   "concurrently"; "conditional"; "configuration"; "conflict"; "connection";
   "constraint"; "constraints"; "content"; "continue"; "conversion"; "copy";
   "cost"; "create"; "cross"; "csv"; "cube"; "current"; "cursor"; "cycle";
   "data"; "database"; "day"; "deallocate"; "dec"; "decimal"; "declare";
   "default"; "defaults"; "deferrable"; "deferred"; "definer"; "delete";
   "delimiter"; "delimiters"; "depends"; "depth"; "desc"; "detach";
   "dictionary"; "disable"; "discard"; "distinct"; "do"; "document";
   "domain"; "double"; "drop"; "each"; "else"; "empty"; "enable"; "encoding";
   "encrypted"; "end"; "enforced"; "enum"; "error"; "escape"; "event";
   "except"; "exclude"; "excluding"; "exclusive"; "execute"; "exists";
   "explain"; "expression"; "extension"; "external"; "extract"; "false";
   "family"; "fetch"; "filter"; "finalize"; "first"; "float"; "following";
   "for"; "force"; "foreign"; "format"; "forward"; "freeze"; "from"; "full";
   "function"; "functions"; "generated"; "global"; "grant"; "granted";
   "greatest"; "group"; "grouping"; "groups"; "handler"; "having"; "header";
   "hold"; "hour"; "identity"; "if"; "ilike"; "immediate"; "immutable";
   "implicit"; "import"; "in"; "include"; "including"; "increment"; "indent";
   "index"; "indexes"; "inherit"; "inherits"; "initially"; "inline"; "inner";
   "inout"; "input"; "insensitive"; "insert"; "instead"; "int"; "integer";
   "intersect"; "interval"; "into"; "invoker"; "is"; "isnull"; "isolation";
   "join"; "json"; "keep"; "key"; "keys"; "label"; "language"; "large";
   "last"; "lateral"; "leading"; "leakproof"; "least"; "left"; "level";
   "like"; "limit"; "listen"; "load"; "local"; "localtime"; "localtimestamp";
   "location"; "lock"; "locked"; "logged"; "mapping"; "match"; "matched";
   "materialized"; "maxvalue"; "merge"; "method"; "minute"; "minvalue";
   "mode"; "month"; "move"; "name"; "names"; "national"; "natural"; "nchar";
   "nested"; "new"; "next"; "nfc"; "nfd"; "nfkc"; "nfkd"; "no"; "none";
   "normalize"; "normalized"; "not"; "nothing"; "notify"; "notnull";
   "nowait"; "null"; "nullif"; "nulls"; "numeric"; "object"; "objects"; "of";
   "off"; "offset"; "oids"; "old"; "omit"; "on"; "only"; "operator";
   "option"; "options"; "or"; "order"; "ordinality"; "others"; "out";
   "outer"; "over"; "overlaps"; "overlay"; "overriding"; "owned"; "owner";
   "parallel"; "parameter"; "parser"; "partial"; "partition"; "passing";
   "password"; "path"; "period"; "placing"; "plan"; "plans"; "policy";
   "position"; "preceding"; "precision"; "prepare"; "prepared"; "preserve";
   "primary"; "prior"; "privileges"; "procedural"; "procedure"; "procedures";
   "program"; "publication"; "quote"; "quotes"; "range"; "read"; "real";
   "reassign"; "recheck"; "recursive"; "ref"; "references"; "referencing";
   "refresh"; "reindex"; "relative"; "release"; "rename"; "repeatable";
   "replace"; "replica"; "reset"; "restart"; "restrict"; "return";
   "returning"; "returns"; "revoke"; "right"; "role"; "rollback"; "rollup";
   "routine"; "routines"; "row"; "rows"; "rule"; "savepoint"; "scalar";
   "schema"; "schemas"; "scroll"; "search"; "second"; "security"; "select";
   "sequence"; "sequences"; "serializable"; "server"; "session"; "set";
   "setof"; "sets"; "share"; "show"; "similar"; "simple"; "skip"; "smallint";
   "snapshot"; "some"; "source"; "sql"; "stable"; "standalone"; "start";
   "statement"; "statistics"; "stdin"; "stdout"; "storage"; "stored";
   "strict"; "string"; "strip"; "subscription"; "substring"; "support";
   "symmetric"; "sysid"; "system"; "table"; "tables"; "tablesample";
   "tablespace"; "target"; "temp"; "template"; "temporary"; "text"; "then";
   "ties"; "time"; "timestamp"; "to"; "trailing"; "transaction"; "transform";
   "treat"; "trigger"; "trim"; "true"; "truncate"; "trusted"; "type";
   "types"; "uescape"; "unbounded"; "uncommitted"; "unconditional";
   "unencrypted"; "union"; "unique"; "unknown"; "unlisten"; "unlogged";
   "until"; "update"; "user"; "using"; "vacuum"; "valid"; "validate";
   "validator"; "value"; "values"; "varchar"; "variadic"; "varying";
   "verbose"; "version"; "view"; "views"; "virtual"; "volatile"; "when";
   "where"; "whitespace"; "window"; "with"; "within"; "without"; "work";
   "wrapper"; "write"; "xml"; "xmlattributes"; "xmlconcat"; "xmlelement";
   "xmlexists"; "xmlforest"; "xmlnamespaces"; "xmlparse"; "xmlpi"; "xmlroot";
   "xmlserialize"; "xmltable"; "year"; "yes"; "zone"].

(** A collection name of lower-case letters and digits that starts with a
    letter and is not a key word of any class, short enough for
    [<name>_body_idx] to fit an identifier. *)
Definition collection_name (c : string) : bool :=
  identifier c && all_chars name_char c
  && bool_decide (c ∉ key_words)
  && bool_decide (String.length c ≤ 54)%nat.

Definition printable (c : ascii) : bool :=
  (32 <=? nat_of_ascii c)%nat && (nat_of_ascii c <=? 126)%nat.

(** A field name of printable characters other than the single quote, the
    dollar sign and the backslash. *)
Definition plain_char (c : ascii) : bool :=
  printable c && negb (Ascii.eqb c "'") && negb (Ascii.eqb c "$")
  && negb (Ascii.eqb c "092").

Definition plain_field (p : string) : bool := all_chars plain_char p.

Definition plain_fields (props : list string) : bool :=
  forallb plain_field props && bool_decide (length props ≤ 50)%nat.

(** The order of the keys of a jsonb object. *)
Definition key_lt (a b : string) : bool :=
  (String.length a <? String.length b)%nat
  || ((String.length a =? String.length b)%nat && String.ltb a b).

Fixpoint keys_sorted (keys : list string) : bool :=
  match keys with
  | a :: (b :: _) as rest => key_lt a b && keys_sorted rest
  | _ => true
  end.

(** A key of printable characters that starts with a letter. *)
Definition key_ok (k : string) : bool :=
  all_chars printable k
  && match k with
     | EmptyString => false
     | String c _ => is_lower c || is_upper c
     end.

(** A JSON value that comes back from a jsonb column as it went in:
    integers that JavaScript holds exactly, printable strings, objects
    with their keys in jsonb order. *)
Fixpoint storable (j : Json) : bool :=
  match j with
  | JNull | JBool _ => true
  | JNum n => bool_decide (-9007199254740991 ≤ n ≤ 9007199254740991)
  | JStr s => all_chars printable s
  | JArr items => forallb storable items
  | JObj members =>
      forallb (λ kv, key_ok kv.1 && storable kv.2) members
      && keys_sorted (members.*1)
  end.

(** The largest value of a [serial] column. *)
Definition serial_max : Z := 2147483647.

End Pg.

(** ** Recovery paths, as the facade's contract states them *)

(** The error classifier, as the facade computes it: the negation of its
    test [e.code !== Postgres.tableDoesNotExist].  It holds exactly of
    the error objects whose code is 42P01 (lemma [is_missing_code]). *)
Definition is_missing (e : Error) : bool :=
  negb (code_differs e PostgresCodes.tableDoesNotExist).

(** Read path: one statement is executed; rows are handed to [found]; a
    failure whose code is 42P01 (undefined table), whatever its message,
    counts as no rows; any other failure is re-signalled as it is.  The
    log lists what was sent.  The condition is written on the error
    object itself, not through the facade's own test. *)
Definition read_path {W A} (pg : Postgres W) (text : string)
    (params : Params) (found : list Row → Result A) (w : W)
    : Result A * (W * Traced.Log) :=
  match pg text params w with
  | (Ok rows, w') => (found rows, (w', [(text, params)]))
  | (Throw e, w') =>
      (if bool_decide (error_code e = Some "42P01") then found []
       else Throw e,
       (w', [(text, params)]))
  end.

(** What the single-document lookups make of the rows. *)
Definition or_null (rows : list Row) : Result (option Row) :=
  Ok (first_or_null rows).
Definition or_missing (collection : string) (criteria : Json)
    (rows : list Row) : Result Row :=
  match rows with
  | [] => Throw (MissingRecordError collection criteria)
  | r :: _ => Ok r
  end.

(** Write path of [insert], case by case: the outcome, the final state and
    the statements sent, for an insert into [collection] from state [w].
    The case is told by the code of the first failure: 42P01 or not. *)
Inductive WritePath {W} (pg : Postgres W) (collection : string)
    (body : Json) (w : W) : Result (option Row) → W → Traced.Log → Prop :=
  | write_done rows w1 :
      pg (Statement.insert collection) (body_params body) w = (Ok rows, w1) →
      WritePath pg collection body w (Ok (head rows)) w1
        [(Statement.insert collection, body_params body)]
  | write_other e w1 :
      pg (Statement.insert collection) (body_params body) w = (Throw e, w1) →
      error_code e ≠ Some "42P01" →
      WritePath pg collection body w (Throw e) w1
        [(Statement.insert collection, body_params body)]
  | write_unprovisioned e w1 e2 w2 :
      pg (Statement.insert collection) (body_params body) w = (Throw e, w1) →
      error_code e = Some "42P01" →
      pg (Statement.createCollection collection) ∅ w1 = (Throw e2, w2) →
      WritePath pg collection body w (Throw e2) w2
        [(Statement.insert collection, body_params body);
         (Statement.createCollection collection, ∅)]
  | write_retried e w1 created w2 r w3 :
      pg (Statement.insert collection) (body_params body) w = (Throw e, w1) →
      error_code e = Some "42P01" →
      pg (Statement.createCollection collection) ∅ w1 = (Ok created, w2) →
      pg (Statement.insert collection) (body_params body) w2 = (r, w3) →
      WritePath pg collection body w
        (match r with Ok rows => Ok (head rows) | Throw e3 => Throw e3 end)
        w3
        [(Statement.insert collection, body_params body);
         (Statement.createCollection collection, ∅);
         (Statement.insert collection, body_params body)].

(** How many times a statement text occurs in a log. *)
Definition sent (text : string) (log : Traced.Log) : nat :=
  length (List.filter (λ q, String.eqb q.1 text) log).

(** No recovery: the outcome of the one statement, first row or
    [undefined]. *)
Definition unrecovered {W} (pg : Postgres W) (text : string)
    (params : Params) (w : W) : Result (option Row) * (W * Traced.Log) :=
  match pg text params w with
  | (Ok rows, w') => (Ok (head rows), (w', [(text, params)]))
  | (Throw e, w') => (Throw e, (w', [(text, params)]))
  end.

(** The outcome is not a failure with code 42P01. *)
Definition not_missing {A} (r : Result A) : Prop :=
  match r with
  | Ok _ => True
  | Throw e => error_code e ≠ Some "42P01"
  end.

(** The strict lookup in terms of the lenient one. *)
Definition strict {W} (collection : string) (criteria : Json)
    (lenient : Result (option Row) * W) : Result Row * W :=
  match lenient with
  | (Ok (Some r), w') => (Ok r, w')
  | (Ok None, w') => (Throw (MissingRecordError collection criteria), w')
  | (Throw e, w') => (Throw e, w')
  end.

(** ** Shapes of the projected select list *)

Module Projection.
Import Pg.

(** The tokens of one projected field: ['p', body->'p']. *)
Definition field_tokens (p : string) : list token :=
  [TStr p; TComma; TWord "body"; TArrow; TStr p].

Definition fields_tokens (props : list string) : list token :=
  match props with
  | [] => []
  | p :: ps => field_tokens p ++ flat_map (λ q, TComma :: field_tokens q) ps
  end.

(** The arguments they parse to, and the members they evaluate to on a
    stored body. *)
Definition fields_args (props : list string) : list Expr :=
  flat_map (λ p, [EStr p; EField "body" p]) props.

Definition fields_members (body : Json) (props : list string)
    : list (string * Json) :=
  (λ p, (p, default JNull (json_get body p))) <$> props.

(** The select list of [tryGet] for the given [props]. *)
Definition items (props : option (list string)) : list Item :=
  [ICol "id"; ICol "created"; ICol "updated";
   match props with
   | None => IStar
   | Some props =>
       ICall "jsonb_build_object" (fields_args props) (Some "body")
   end].

Definition by_id (props : option (list string)) (table : string)
    : Select :=
  {| sel_items := items props; sel_table := table;
     sel_where := Some (CIdEq "id"); sel_order := false;
     sel_limit := Some 1%nat |}.

(** The row [tryGet] returns for a stored document. *)
Definition projected (props : option (list string)) (d : Doc) : Row :=
  match props with
  | None => document d
  | Some props =>
      <["body" := CJson (build_object (fields_members (doc_body d) props))]>
        (document d)
  end.
End Projection.

(** ** Two sessions on one database *)

(** The execution layer of a session that shares the database with other
    sessions: after each of its statements the next pending piece of the
    others' work, if any, takes place. *)
Module Racing.
Definition query : Postgres (Pg.Db * list (Pg.Db → Pg.Db)) :=
  λ text params '(db, others),
    let '(r, db1) := Pg.query text params db in
    match others with
    | [] => (r, (db1, []))
    | other :: others' => (r, (other db1, others'))
    end.
End Racing.

(** ** Sample data *)

Module Sample.
Import Pg.

Definition first : Doc :=
  {| doc_id := 1; doc_body := JObj [("a", JNum 1); ("b", JNum 2)];
     doc_created := 10; doc_updated := 10 |}.
Definition second : Doc :=
  {| doc_id := 2; doc_body := JObj [("a", JNum 1); ("b", JNum 3)];
     doc_created := 20; doc_updated := 20 |}.
Definition third : Doc :=
  {| doc_id := 3; doc_body := JObj [("a", JNum 2); ("b", JNum 2)];
     doc_created := 30; doc_updated := 30 |}.
Definition nested : Doc :=
  {| doc_id := 4;
     doc_body := JObj [("a", JObj [("x", JNum 1); ("y", JNum 2)])];
     doc_created := 40; doc_updated := 40 |}.

(** The rows are not stored in the order of their ids. *)
Definition notes : Table :=
  {| rows := [second; nested; third; first]; next_id := 5 |}.

Definition db : Db :=
  {| tables := {[ "notes" := notes ]};
     indexes := {[ "notes_body_idx" := "notes" ]};
     clock := 50 |}.

(** Three inserts into a collection that does not exist yet. *)
Definition three_notes : Async Db unit :=
  let* _ := await Database.insert (pg := Pg.query) "notes"
                    (JObj [("a", JNum 1); ("b", JNum 2)]) in
  let* _ := await Database.insert (pg := Pg.query) "notes"
                    (JObj [("a", JNum 1); ("b", JNum 3)]) in
  let* _ := await Database.insert (pg := Pg.query) "notes"
                    (JObj [("a", JNum 2); ("b", JNum 2)]) in
  ret ().
End Sample.

(** ** Vocabulary of the statements about stored documents *)


Definition is_object (j : Json) : bool :=
  match j with
  | JObj _ => true
  | _ => false
  end.

(** The rows of a table with a given id. *)
Definition with_id (id : Z) (t : Pg.Table) : list Pg.Doc :=
  List.filter (λ d, Z.eqb (Pg.doc_id d) id) (Pg.rows t).

(** The rows of a table whose body contains the criteria. *)
Definition matching (criteria : Json) (t : Pg.Table) : list Pg.Doc :=
  List.filter (λ d, Pg.jsonb_contains (Pg.doc_body d) criteria) (Pg.rows t).

(** A document after [update]: new body, [updated] set to the current
    time, [id] and [created] as they were. *)
Definition changed (body : Json) (now : Z) (d : Pg.Doc) : Pg.Doc :=
  {| Pg.doc_id := Pg.doc_id d; Pg.doc_body := body;
     Pg.doc_created := Pg.doc_created d; Pg.doc_updated := now |}.

(** The database after provisioning a collection. *)
Definition provisioned (c : string) (db : Pg.Db) : Pg.Db :=
  {| Pg.tables := <[c := {| Pg.rows := []; Pg.next_id := 1 |}]> (Pg.tables db);
     Pg.indexes := <[c +:+ "_body_idx" := c]> (Pg.indexes db);
     Pg.clock := Pg.clock db |}.


(** ** Well-formed databases

    What the table definition of [createCollection] and the statements of
    [insert] and [update] maintain: ids come from the [serial] counter and
    are unique, bodies are JSON objects, and a row was not updated before
    it was created nor after the current time. *)

Definition doc_ok (now next : Z) (d : Pg.Doc) : Prop :=
  0 < Pg.doc_id d < next
  ∧ is_object (Pg.doc_body d) = true
  ∧ Pg.doc_created d ≤ Pg.doc_updated d ≤ now.

Definition table_ok (now : Z) (t : Pg.Table) : Prop :=
  0 < Pg.next_id t
  ∧ Forall (doc_ok now (Pg.next_id t)) (Pg.rows t)
  ∧ NoDup (Pg.doc_id <$> Pg.rows t).

Definition db_ok (db : Pg.Db) : Prop :=
  map_Forall (λ _ t, table_ok (Pg.clock db) t) (Pg.tables db).

Global Instance db_ok_dec db : Decision (db_ok db).
Proof. unfold db_ok, table_ok, doc_ok. apply _. Defined.

(** The document [insert] stores in a table, and the table afterwards. *)
Definition fresh (body : Json) (now : Z) (t : Pg.Table) : Pg.Doc :=
  {| Pg.doc_id := Pg.next_id t; Pg.doc_body := body;
     Pg.doc_created := now; Pg.doc_updated := now |}.

Definition appended (body : Json) (now : Z) (t : Pg.Table) : Pg.Table :=
  {| Pg.rows := Pg.rows t ++ [fresh body now t];
     Pg.next_id := Pg.next_id t + 1 |}.

(** The table of a collection that has just been provisioned. *)
Definition new_table : Pg.Table := {| Pg.rows := []; Pg.next_id := 1 |}.

(** No table and no index has the name. *)
Definition free (name : string) (db : Pg.Db) : bool :=
  negb (Pg.relation_exists name db).

(** The id of a returned document. *)
Definition row_id (r : Row) : option Z :=
  match r !! "id" with
  | Some (CNum n) => Some n
  | _ => None
  end.


(** * Theorems *)

(** ** Control flow of the facade, for every execution layer *)

Section ControlFlow.
Context {W : Type} (pg : Postgres W).

(** The facade's test [e.code !== Postgres.tableDoesNotExist] fails
    exactly on the error objects whose code is 42P01. *)
Lemma code_differs_code e :
  code_differs e PostgresCodes.tableDoesNotExist
  = negb (bool_decide (error_code e = Some "42P01")).
Proof.
  unfold code_differs, PostgresCodes.tableDoesNotExist.
  destruct (error_code e) as [c|]; [|done].
  destruct (String.eqb_spec c "42P01") as [->|Hne].
  - by rewrite bool_decide_eq_true_2.
  - by rewrite bool_decide_eq_false_2 by congruence.
Qed.

Lemma is_missing_code e :
  is_missing e = true ↔ error_code e = Some "42P01".
Proof.
  unfold is_missing. rewrite code_differs_code, negb_involutive.
  apply bool_decide_eq_true.
Qed.

Lemma is_missing_decide e :
  is_missing e = bool_decide (error_code e = Some "42P01").
Proof. unfold is_missing. by rewrite code_differs_code, negb_involutive. Qed.

Lemma queryCollection_read_path collection params text w :
  Database.queryCollection (pg := Traced.query pg) collection params text
    (w, []) = read_path pg text params Ok w.
Proof.
  unfold Database.queryCollection, try_catch, read_path, pg_query,
    Traced.query.
  destruct (pg text params w) as [[rows|e] w']; simpl; [done|].
  rewrite code_differs_code.
  by destruct (bool_decide (error_code e = Some "42P01")).
Qed.

Lemma first_row_read_path collection params text w :
  (let* results := await Database.queryCollection
                           (pg := Traced.query pg) collection params text in
   ret (first_or_null results)) (w, [])
  = read_path pg text params or_null w.
Proof.
  unfold bind. rewrite queryCollection_read_path.
  unfold read_path.
  destruct (pg text params w) as [[rows|e] w']; simpl; [done|].
  by destruct (bool_decide (error_code e = Some "42P01")).
Qed.

Lemma strict_read_path collection criteria params text w :
  strict collection criteria (read_path pg text params or_null w)
  = read_path pg text params (or_missing collection criteria) w.
Proof.
  unfold read_path, strict, or_null, or_missing.
  destruct (pg text params w) as [[rows|e] w']; simpl.
  - by destruct rows.
  - by destruct (bool_decide (error_code e = Some "42P01")).
Qed.

(** The read path spelled out on the error object: the failure is
    recovered exactly when its code is the string 42P01. *)
Lemma read_path_by_code {A} (found : list Row → Result A) text params w :
  read_path pg text params found w
  = match pg text params w with
    | (Ok rows, w') => (found rows, (w', [(text, params)]))
    | (Throw (ExecError (Some "42P01") message), w') =>
        (found [], (w', [(text, params)]))
    | (Throw e, w') => (Throw e, (w', [(text, params)]))
    end.
Proof.
  unfold read_path.
  destruct (pg text params w) as [[rows|e] w']; [done|].
  destruct e as [[code|] message|c crit]; [|done..].
  destruct (decide (code = "42P01")) as [->|Hne]; [done|].
  rewrite bool_decide_eq_false_2 by (simpl; congruence).
  by repeat (case_match; simplify_eq; try done).
Qed.

Lemma get_read_path collection id props w :
  Database.get (pg := Traced.query pg) collection id props (w, [])
  = read_path pg (Statement.tryGet (propsToColumns props) collection)
      (id_params id) (or_missing collection (JObj [("id", JNum id)])) w.
Proof.
  unfold Database.get, bind at 1.
  change (Database.tryGet collection id props)
    with (let* results := await Database.queryCollection
            (pg := Traced.query pg) collection (id_params id)
            (Statement.tryGet (propsToColumns props) collection) in
          ret (first_or_null results)).
  rewrite first_row_read_path, <- strict_read_path.
  unfold read_path, strict, or_null.
  destruct (pg _ _ w) as [[rows|e] w']; simpl.
  - by destruct rows.
  - by destruct (bool_decide (error_code e = Some "42P01")).
Qed.

Lemma findOne_read_path collection criteria w :
  Database.findOne (pg := Traced.query pg) collection criteria (w, [])
  = read_path pg (Statement.tryFindOne collection)
      (criteria_params criteria) (or_missing collection criteria) w.
Proof.
  unfold Database.findOne, bind at 1.
  change (Database.tryFindOne collection criteria)
    with (let* results := await Database.queryCollection
            (pg := Traced.query pg) collection (criteria_params criteria)
            (Statement.tryFindOne collection) in
          ret (first_or_null results)).
  rewrite first_row_read_path, <- strict_read_path.
  unfold read_path, strict, or_null.
  destruct (pg _ _ w) as [[rows|e] w']; simpl.
  - by destruct rows.
  - by destruct (bool_decide (error_code e = Some "42P01")).
Qed.

(** What [insert] does, case by case. *)
Lemma insert_write_path collection body w :
  let '(r, (w', log)) :=
    Database.insert (pg := Traced.query pg) collection body (w, []) in
  WritePath pg collection body w r w' log.
Proof.
  unfold Database.insert, Database.changeCollection,
    Database.createCollection, bind, try_catch, pg_query, ret, throw.
  unfold Traced.query at 1.
  destruct (pg (Statement.insert collection) (body_params body) w)
    as [[rows|e] w1] eqn:E1; simpl.
  { by apply write_done. }
  rewrite code_differs_code.
  destruct (bool_decide (error_code e = Some "42P01")) eqn:Ec; simpl.
  2:{ apply bool_decide_eq_false in Ec. by apply write_other. }
  apply bool_decide_eq_true in Ec.
  unfold Traced.query at 1.
  destruct (pg (Statement.createCollection collection) ∅ w1)
    as [[created|e2] w2] eqn:E2; simpl.
  - unfold Traced.query.
    destruct (pg (Statement.insert collection) (body_params body) w2)
      as [r3 w3] eqn:E3.
    assert (HW := write_retried pg collection body w e w1 created w2 r3 w3
                    E1 Ec E2 E3).
    by destruct r3 as [rows3|e3].
  - by eapply write_unprovisioned.
Qed.

(** Neither statement text is the other. *)
Lemma create_is_not_insert collection :
  String.eqb (Statement.createCollection collection)
    (Statement.insert collection) = false
  ∧ String.eqb (Statement.insert collection)
      (Statement.createCollection collection) = false.
Proof.
  assert (Hne : String.eqb (Statement.createCollection collection)
                  (Statement.insert collection) = false).
  { apply String.eqb_neq. unfold Statement.createCollection,
      Statement.insert. cbn. discriminate. }
  split; [done|]. by rewrite String.eqb_sym.
Qed.
End ControlFlow.

Section ControlFlowClaims.
Context {W : Type} (pg : Postgres W).

Lemma createCollection_not_a_read c' columns collection :
  Statement.createCollection c' ∉
    [Statement.all collection; Statement.find collection;
     Statement.tryFindOne collection;
     Statement.tryGet columns collection;
     Statement.legacyGet collection; Statement.link collection].
Proof.
  rewrite !elem_of_cons, elem_of_nil.
  unfold Statement.createCollection, Statement.all, Statement.find,
    Statement.tryFindOne, Statement.tryGet, Statement.legacyGet,
    Statement.link.
  cbn. intros H. repeat destruct H as [H|H]; try discriminate H. done.
Qed.

(** C2.  Every read operation sends exactly one statement, its own
    select, and never the provisioning statement.  When the execution
    fails with an error whose code is 42P01 (undefined table), whatever
    the message, the result is the empty one: [all] and [find] return the
    empty sequence, [tryGet] and [tryFindOne] return null, [get] and
    [findOne] fail with [MissingRecordError].  A failure with any other
    code, or with no code, is re-thrown unchanged. *)
Theorem reads_recover_without_provisioning
    (collection : string) (id : Z) (props : option (list string))
    (criteria : Json) (w : W) :
  Database.all (pg := Traced.query pg) collection (w, [])
    = read_path pg (Statement.all collection) ∅ Ok w
  ∧ Database.find (pg := Traced.query pg) collection criteria (w, [])
    = read_path pg (Statement.find collection) (criteria_params criteria)
        Ok w
  ∧ Database.tryGet (pg := Traced.query pg) collection id props (w, [])
    = read_path pg (Statement.tryGet (propsToColumns props) collection)
        (id_params id) or_null w
  ∧ Database.tryFindOne (pg := Traced.query pg) collection criteria (w, [])
    = read_path pg (Statement.tryFindOne collection)
        (criteria_params criteria) or_null w
  ∧ Database.get (pg := Traced.query pg) collection id props (w, [])
    = read_path pg (Statement.tryGet (propsToColumns props) collection)
        (id_params id)
        (or_missing collection (JObj [("id", JNum id)])) w
  ∧ Database.findOne (pg := Traced.query pg) collection criteria (w, [])
    = read_path pg (Statement.tryFindOne collection)
        (criteria_params criteria) (or_missing collection criteria) w
  ∧ (∀ c', Statement.createCollection c' ∉
        [Statement.all collection; Statement.find collection;
         Statement.tryFindOne collection;
         Statement.tryGet (propsToColumns props) collection;
         Statement.legacyGet collection; Statement.link collection])
  ∧ (∀ A (found : list Row → Result A) text params,
       read_path pg text params found w
       = match pg text params w with
         | (Ok rows, w') => (found rows, (w', [(text, params)]))
         | (Throw (ExecError (Some "42P01") message), w') =>
             (found [], (w', [(text, params)]))
         | (Throw e, w') => (Throw e, (w', [(text, params)]))
         end)
  ∧ or_null [] = Ok None
  ∧ or_missing collection criteria []
    = Throw (MissingRecordError collection criteria).
Proof.
  split_and!.
  - apply queryCollection_read_path.
  - apply queryCollection_read_path.
  - apply first_row_read_path.
  - apply first_row_read_path.
  - apply get_read_path.
  - apply findOne_read_path.
  - intros c'. apply createCollection_not_a_read.
  - intros A found text params. apply read_path_by_code.
  - done.
  - done.
Qed.

(** C1.  [insert] follows the write path: the insert statement is
    executed; a failure whose code is not 42P01 is re-thrown unchanged
    and nothing else is sent; on a failure whose code is 42P01 the
    provisioning statement is executed and, when it succeeds, the same
    insert is executed once more, whose outcome (rows or failure, a
    second 42P01 included) is the outcome of the call; when provisioning
    fails, its failure is the outcome and there is no retry.  The insert
    statement is sent once or twice, never more. *)
Theorem insert_retries_at_most_once (collection : string) (body : Json)
    (w : W) :
  let ins := (Statement.insert collection, body_params body) in
  let create := (Statement.createCollection collection, (∅ : Params)) in
  let '(r, (w', log)) :=
    Database.insert (pg := Traced.query pg) collection body (w, []) in
  WritePath pg collection body w r w' log
  ∧ (1 ≤ sent (Statement.insert collection) log ≤ 2)%nat
  ∧ (sent (Statement.createCollection collection) log ≤ 1)%nat
  ∧ (length log ≤ 3)%nat
  ∧ match pg ins.1 ins.2 w with
    | (Ok rows, w1) => r = Ok (head rows) ∧ w' = w1 ∧ log = [ins]
    | (Throw (ExecError (Some "42P01") message), w1) =>
        match pg create.1 create.2 w1 with
        | (Ok _, w2) =>
            match pg ins.1 ins.2 w2 with
            | (Ok rows, w3) =>
                r = Ok (head rows) ∧ w' = w3 ∧ log = [ins; create; ins]
            | (Throw e3, w3) =>
                r = Throw e3 ∧ w' = w3 ∧ log = [ins; create; ins]
            end
        | (Throw e2, w2) => r = Throw e2 ∧ w' = w2 ∧ log = [ins; create]
        end
    | (Throw e, w1) => r = Throw e ∧ w' = w1 ∧ log = [ins]
    end.
Proof.
  intros ins create.
  destruct (create_is_not_insert collection) as [Hne Hne'].
  pose proof (insert_write_path pg collection body w) as HW.
  destruct (Database.insert collection body (w, [])) as [r [w' log]].
  split; [exact HW|].
  subst ins create. cbn [fst snd].
  inversion HW as [rows w1 E1|e w1 E1 Ec|e w1 e2 w2 E1 Ec E2
                  |e w1 created w2 r3 w3 E1 Ec E2 E3]; subst;
    rewrite E1; unfold sent; simpl;
    rewrite ?String.eqb_refl, ?Hne, ?Hne'; simpl.
  - split_and!; (lia || done).
  - split_and!; [lia..|].
    destruct e as [[code|] message|c crit]; [|done..].
    destruct (decide (code = "42P01")) as [->|Hc]; [done|].
    by repeat (case_match; simplify_eq; try done).
  - split_and!; [lia..|].
    destruct e as [[code|] message|c crit]; simplify_eq/=.
    by rewrite E2.
  - split_and!; [lia..|].
    destruct e as [[code|] message|c crit]; simplify_eq/=.
    rewrite E2, E3. by destruct r3.
Qed.


(** C3, as amended.  The six read operations resolve a failure whose
    code is 42P01 into the empty result (the empty sequence, null, or
    [MissingRecordError]), so no such failure comes out of them.
    [insert] answers a first 42P01 failure by sending the provisioning
    statement, and retries when that succeeds: a 42P01 failure comes out
    of [insert] only after the provisioning statement was sent.  [update]
    and [raw] send their one statement without recovery: whatever failure
    the execution reports, 42P01 included, is the failure of the call. *)
Theorem collection_missing_resolved_by_reads_and_insert
    (collection : string) (id : Z) (props : option (list string))
    (criteria body : Json) (params : Params) (text : string) (w : W) :
  (Database.all (pg := Traced.query pg) collection (w, [])
     = read_path pg (Statement.all collection) ∅ Ok w
   ∧ Database.find (pg := Traced.query pg) collection criteria (w, [])
     = read_path pg (Statement.find collection) (criteria_params criteria)
         Ok w
   ∧ Database.tryGet (pg := Traced.query pg) collection id props (w, [])
     = read_path pg (Statement.tryGet (propsToColumns props) collection)
         (id_params id) or_null w
   ∧ Database.tryFindOne (pg := Traced.query pg) collection criteria (w, [])
     = read_path pg (Statement.tryFindOne collection)
         (criteria_params criteria) or_null w
   ∧ Database.get (pg := Traced.query pg) collection id props (w, [])
     = read_path pg (Statement.tryGet (propsToColumns props) collection)
         (id_params id)
         (or_missing collection (JObj [("id", JNum id)])) w
   ∧ Database.findOne (pg := Traced.query pg) collection criteria (w, [])
     = read_path pg (Statement.tryFindOne collection)
         (criteria_params criteria) (or_missing collection criteria) w)
  ∧ (∀ A (found : list Row → Result A) q ps e w1,
       pg q ps w = (Throw e, w1) →
       error_code e = Some "42P01" →
       read_path pg q ps found w = (found [], (w1, [(q, ps)])))
  ∧ (not_missing (Database.all collection w).1
     ∧ not_missing (Database.find collection criteria w).1
     ∧ not_missing (Database.tryGet collection id props w).1
     ∧ not_missing (Database.get collection id props w).1
     ∧ not_missing (Database.tryFindOne collection criteria w).1
     ∧ not_missing (Database.findOne collection criteria w).1)
  ∧ (let '(r, (w', log)) :=
       Database.insert (pg := Traced.query pg) collection body (w, []) in
     WritePath pg collection body w r w' log
     ∧ (not_missing r
        ∨ log !! 1%nat = Some (Statement.createCollection collection, ∅)))
  ∧ Database.update (pg := Traced.query pg) collection id body (w, [])
    = unrecovered pg (Statement.update collection)
        (id_body_params id body) w
  ∧ Database.raw (pg := Traced.query pg) params text (w, [])
    = (let '(r, w') := pg text params w in (r, (w', [(text, params)]))).
Proof.
  assert (Hq : ∀ ps t, not_missing
             (Database.queryCollection collection ps t w).1).
  { intros ps t. unfold Database.queryCollection, try_catch, pg_query.
    destruct (pg t ps w) as [[rows|e] w']; simpl; [done|].
    rewrite code_differs_code.
    destruct (bool_decide (error_code e = Some "42P01")) eqn:Ec; simpl;
      [done|].
    by apply bool_decide_eq_false in Ec. }
  assert (Hf : ∀ ps t, not_missing
             ((let* results := await Database.queryCollection
                                 collection ps t in
               ret (first_or_null results)) w).1).
  { intros ps t. specialize (Hq ps t). unfold bind.
    by destruct (Database.queryCollection collection ps t w)
      as [[rows|e] w']. }
  assert (Hs : ∀ ps t crit, not_missing
             ((let* result := await
                 (let* results := await Database.queryCollection
                                    collection ps t in
                  ret (first_or_null results)) in
               match result with
               | None => throw (MissingRecordError collection crit)
               | Some r => ret r
               end) w).1).
  { intros ps t crit. specialize (Hf ps t). unfold bind at 1.
    destruct ((let* results := await _ in _) w) as [[[r|]|e] w'];
      simpl in *; done. }
  split_and!.
  - apply queryCollection_read_path.
  - apply queryCollection_read_path.
  - apply first_row_read_path.
  - apply first_row_read_path.
  - apply get_read_path.
  - apply findOne_read_path.
  - intros A found q ps e w1 E Ec. unfold read_path. rewrite E.
    by rewrite bool_decide_eq_true_2.
  - apply Hq.
  - apply Hq.
  - apply Hf.
  - apply Hs.
  - apply Hf.
  - apply Hs.
  - pose proof (insert_write_path pg collection body w) as HW.
    destruct (Database.insert collection body (w, [])) as [r [w' log]].
    split; [exact HW|].
    inversion HW as [rows w1 E1|e w1 E1 Ec|e w1 e2 w2 E1 Ec E2
                    |e w1 created w2 r3 w3 E1 Ec E2 E3]; subst.
    + by left.
    + by left.
    + by right.
    + by right.
  - unfold Database.update, Database.raw, bind, pg_query, ret,
      unrecovered, Traced.query.
    by destruct (pg _ _ w) as [[rows|e] w'].
  - unfold Database.raw, pg_query, Traced.query.
    by destruct (pg text params w).
Qed.
End ControlFlowClaims.

(** ** The reference model: lexing the facade's statements *)

Section Lexing.
Import Pg.

Lemma append_cons c (s t : string) : String c s +:+ t = String c (s +:+ t).
Proof. done. Qed.

Lemma append_assoc (a b c : string) : (a +:+ b) +:+ c = a +:+ (b +:+ c).
Proof.
  induction a as [|x a IH]; [done|]. rewrite !append_cons. by f_equal.
Qed.

Lemma append_empty_r (a : string) : a +:+ "" = a.
Proof.
  induction a as [|x a IH]; [done|]. rewrite append_cons. by f_equal.
Qed.

Lemma snoc_append acc c s : snoc acc c +:+ s = acc +:+ String c s.
Proof. unfold snoc. by rewrite append_assoc. Qed.

Lemma lex_seq st s1 st1 o1 s2 st2 o2 :
  lex_run st s1 = (st1, o1) →
  lex_run st1 s2 = (st2, o2) →
  lex_run st (s1 +:+ s2) = (st2, o1 ++ o2).
Proof.
  revert st st1 o1. induction s1 as [|c s1 IH]; intros st st1 o1 H1 H2.
  - simpl in H1. by simplify_eq.
  - rewrite append_cons. simpl in *. destruct (lex_step st c) as [sta oa].
    destruct (lex_run sta s1) as [stb ob] eqn:Hb. simplify_eq.
    erewrite IH by done. by rewrite app_assoc.
Qed.

Lemma word_not_space c : is_word c = true → is_space c = false.
Proof. destruct c as [[] [] [] [] [] [] [] []]; by vm_compute. Qed.

Lemma ident_char_word c : ident_char c = true → is_word c = true.
Proof. destruct c as [[] [] [] [] [] [] [] []]; by vm_compute. Qed.

Lemma all_chars_impl (P Q : ascii → bool) s :
  (∀ c, P c = true → Q c = true) →
  all_chars P s = true → all_chars Q s = true.
Proof.
  intros HPQ. induction s as [|c s IH]; simpl; [done|].
  rewrite !andb_true_iff. intros [Hc Hs]. split; auto.
Qed.

Lemma lex_in_word acc w :
  all_chars is_word w = true →
  lex_run (InWord acc) w = (InWord (acc +:+ w), []).
Proof.
  revert acc. induction w as [|c w IH]; intros acc Hw; simpl in *.
  - by rewrite append_empty_r.
  - apply andb_true_iff in Hw as [Hc Hw]. rewrite Hc, IH by done.
    by rewrite snoc_append.
Qed.

Lemma lex_word w :
  w ≠ "" → all_chars is_word w = true →
  lex_run Idle w = (InWord w, []).
Proof.
  destruct w as [|c w]; [done|]. intros _ Hw. simpl in *.
  apply andb_true_iff in Hw as [Hc Hw].
  unfold lex_idle. rewrite (word_not_space c Hc), Hc.
  by rewrite lex_in_word.
Qed.

(** A word ends at the first character that is not a word character. *)
Lemma lex_word_end acc c s st out :
  is_word c = false →
  lex_run Idle (String c s) = (st, out) →
  lex_run (InWord acc) (String c s) = (st, TWord acc :: out).
Proof.
  simpl. intros ->. destruct (lex_idle c) as [sta oa]. simpl.
  destruct (lex_run sta s) as [stb ob]. by intros [= <- <-].
Qed.

Lemma lex_in_str acc p :
  quote_free p = true →
  lex_run (InStr acc) p = (InStr (acc +:+ p), []).
Proof.
  unfold quote_free. revert acc.
  induction p as [|c p IH]; intros acc Hp; simpl in *.
  - by rewrite append_empty_r.
  - apply andb_true_iff in Hp as [Hc Hp].
    apply negb_true_iff in Hc. rewrite Hc, IH by done.
    by rewrite snoc_append.
Qed.

(** A string constant ends at a quote followed by another character. *)
Lemma lex_str_end acc c s st out :
  Ascii.eqb c "'" = false →
  lex_run Idle (String c s) = (st, out) →
  lex_run (InStr acc) (String "'" (String c s)) = (st, TStr acc :: out).
Proof.
  simpl. intros ->. destruct (lex_idle c) as [sta oa]. simpl.
  destruct (lex_run sta s) as [stb ob]. by intros [= <- <-].
Qed.

Lemma identifier_name c : identifier c = true → is_name c = true.
Proof. unfold identifier. by intros [? _]%andb_true_iff. Qed.

Lemma identifier_word c :
  identifier c = true → c ≠ "" ∧ all_chars is_word c = true.
Proof.
  unfold identifier. intros [Hn Hc]%andb_true_iff. split.
  - by destruct c.
  - eapply all_chars_impl; [apply ident_char_word|done].
Qed.

Lemma lex_identifier c :
  identifier c = true → lex_run Idle c = (InWord c, []).
Proof. intros [? ?]%identifier_word. by apply lex_word. Qed.
End Lexing.

(** ** The reference model: parsing the facade's statements *)

Section Parsing.
Import Pg Projection.
Local Arguments is_name : simpl never.

Lemma lex_in_str_start p :
  quote_free p = true → lex_run (InStr "") p = (InStr p, []).
Proof. intros Hp. by rewrite lex_in_str. Qed.

Lemma lex_propColumn p :
  quote_free p = true →
  lex_run Idle (propColumn p) = (Idle, field_tokens p).
Proof.
  intros Hp. unfold propColumn. etrans.
  { eapply lex_seq; [by vm_compute|].
    eapply lex_seq; [by apply lex_in_str_start|].
    eapply lex_seq; [by apply lex_str_end; [|vm_compute]|].
    eapply lex_seq; [by apply lex_in_str_start|].
    by apply lex_str_end; [|vm_compute]. }
  done.
Qed.

Lemma lex_fields_cons p ps :
  Forall (λ q, quote_free q = true) (p :: ps) →
  lex_run Idle (String.concat ", " (propColumn <$> p :: ps))
  = (Idle, fields_tokens (p :: ps)).
Proof.
  revert p. induction ps as [|q qs IH]; intros p Hq.
  - inversion Hq; subst. cbn. by rewrite lex_propColumn.
  - inversion Hq as [|? ? Hp Hqs]; subst.
    change (String.concat ", " (propColumn <$> p :: q :: qs))
      with (propColumn p +:+ ", "
            +:+ String.concat ", " (propColumn <$> q :: qs)).
    erewrite lex_seq; [|by apply lex_propColumn|].
    2:{ eapply lex_seq; [by vm_compute|]. by apply IH. }
    done.
Qed.

Lemma lex_columns props :
  Forall (λ q, quote_free q = true) props →
  lex_run Idle (propsToColumns (Some props))
  = (Idle, [TWord "jsonb_build_object"; TLParen] ++ fields_tokens props
           ++ [TRParen; TQuoted "body"]).
Proof.
  intros Hq. unfold propsToColumns. etrans.
  { eapply lex_seq; [by vm_compute|].
    eapply (lex_seq _ _ Idle (fields_tokens props)); [|by vm_compute].
    destruct props as [|p ps]; [done|]. by apply lex_fields_cons. }
  done.
Qed.

Lemma parse_more_fields f args items ps rest :
  parse_items (MAfterArg f args) items
    (flat_map (λ q, TComma :: field_tokens q) ps ++ TRParen :: rest)
  = parse_items (MAfterCall f (args ++ fields_args ps)) items rest.
Proof.
  revert args. induction ps as [|q qs IH]; intros args.
  - cbn. by rewrite app_nil_r.
  - cbn. rewrite IH. by rewrite <- !app_assoc.
Qed.

Lemma parse_fields f args items props rest :
  parse_items (MArgs f args true) items
    (fields_tokens props ++ TRParen :: rest)
  = parse_items (MAfterCall f (args ++ fields_args props)) items rest.
Proof.
  destruct props as [|p ps].
  - cbn. by rewrite app_nil_r.
  - unfold fields_tokens. rewrite <- app_assoc. cbn.
    rewrite parse_more_fields. by rewrite <- !app_assoc.
Qed.

Lemma split_statements_one cur toks :
  Forall (λ t, t ≠ TSemi) toks → split_statements cur toks = [cur ++ toks].
Proof.
  revert cur. induction toks as [|t toks IH]; intros cur Hs.
  - by rewrite app_nil_r.
  - inversion Hs as [|? ? Ht Hs']; subst.
    destruct t; try done; simpl; rewrite IH by done;
      by rewrite <- app_assoc.
Qed.

Lemma fields_tokens_no_semi props :
  Forall (λ t, t ≠ TSemi) (fields_tokens props).
Proof.
  destruct props as [|p ps]; [constructor|].
  unfold fields_tokens. apply Forall_app. split.
  - by repeat constructor.
  - induction ps as [|q qs IH]; [constructor|].
    simpl. by repeat constructor.
Qed.

Lemma has_suffix_append c suffix : has_suffix suffix (c +:+ suffix) = true.
Proof.
  induction c as [|x c IH].
  - destruct suffix; simpl; by rewrite ?String.eqb_refl, ?Ascii.eqb_refl.
  - rewrite append_cons. simpl. rewrite IH. apply orb_true_r.
Qed.

Lemma identifier_index_name c :
  identifier c = true → is_name (c +:+ "_body_idx") = true.
Proof.
  intros Hc. pose proof (identifier_name c Hc) as Hn.
  destruct c as [|x c]; [done|]. rewrite append_cons.
  unfold is_name in *. apply andb_true_iff in Hn as [Hd _].
  rewrite Hd. simpl. apply bool_decide_eq_true. intros Hin.
  assert (Hall : forallb (λ r, negb (has_suffix "_body_idx" r)) reserved
                 = true) by (by vm_compute).
  rewrite forallb_forall in Hall.
  apply list_elem_of_In, Hall, negb_true_iff in Hin.
  rewrite <- append_cons, has_suffix_append in Hin. done.
Qed.

Ltac lex_piece :=
  lazymatch goal with
  | |- lex_run Idle (propsToColumns (Some _)) = _ =>
      apply lex_columns; assumption
  | |- lex_run Idle ?c = _ =>
      first [ is_var c; apply lex_identifier; assumption
            | by vm_compute ]
  | |- lex_run (InWord _) (String _ _) = _ =>
      first [ apply lex_word_end; [done | by vm_compute]
            | apply lex_in_word; by vm_compute ]
  | |- lex_run (InStr "") ?p = _ =>
      is_var p; apply lex_in_str_start; assumption
  | |- lex_run (InStr _) (String _ _) = _ =>
      apply lex_str_end; [done | by vm_compute]
  end.

Ltac lex_text :=
  lazymatch goal with
  | |- lex_run _ (_ +:+ _) = _ => eapply lex_seq; [lex_piece | lex_text]
  | |- _ => lex_piece
  end.

Ltac lex_goal :=
  lazymatch goal with
  | |- context [lex_run Idle ?t] =>
      let H := fresh in
      eassert (H : lex_run Idle t = _) by lex_text; rewrite H; clear H
  end.

Ltac parse_goal Hc :=
  unfold parse, lex; lex_goal; cbn;
  rewrite ?(identifier_name _ Hc); cbn; try done.

Variable c : string.
Hypothesis Hc : identifier c = true.

Lemma parse_all :
  parse (Statement.all c)
  = Some [SSelect {| sel_items := [IStar]; sel_table := c;
                     sel_where := None; sel_order := true;
                     sel_limit := None |}].
Proof. unfold Statement.all, sql. parse_goal Hc. Qed.

Lemma parse_find :
  parse (Statement.find c)
  = Some [SSelect {| sel_items := [IStar]; sel_table := c;
                     sel_where := Some (CContains "criteria");
                     sel_order := true; sel_limit := None |}].
Proof. unfold Statement.find, sql. parse_goal Hc. Qed.

Lemma parse_tryFindOne :
  parse (Statement.tryFindOne c)
  = Some [SSelect {| sel_items := [IStar]; sel_table := c;
                     sel_where := Some (CContains "criteria");
                     sel_order := false; sel_limit := Some 1%nat |}].
Proof. unfold Statement.tryFindOne, sql. parse_goal Hc. Qed.

Lemma parse_legacyGet :
  parse (Statement.legacyGet c)
  = Some [SSelect {| sel_items := [IStar]; sel_table := c;
                     sel_where := Some (CIdEq "id");
                     sel_order := false; sel_limit := Some 1%nat |}].
Proof. unfold Statement.legacyGet, sql. parse_goal Hc. Qed.

Lemma parse_tryGet_star :
  parse (Statement.tryGet (propsToColumns None) c)
  = Some [SSelect (by_id None c)].
Proof. unfold Statement.tryGet, propsToColumns, sql. parse_goal Hc. Qed.

Lemma parse_insert :
  parse (Statement.insert c) = Some [SInsert c "body"].
Proof. unfold Statement.insert, sql. parse_goal Hc. Qed.

Lemma parse_update :
  parse (Statement.update c) = Some [SUpdate c "body" "id"].
Proof. unfold Statement.update, sql. parse_goal Hc. Qed.

Lemma parse_tryGet_fields props :
  Forall (λ q, quote_free q = true) props →
  parse (Statement.tryGet (propsToColumns (Some props)) c)
  = Some [SSelect (by_id (Some props) c)].
Proof.
  intros Hq. unfold Statement.tryGet, sql.
  unfold parse, lex. lex_goal. cbn.
  rewrite split_statements_one.
  2:{ rewrite !Forall_app. split_and!;
        try apply fields_tokens_no_semi; by repeat constructor. }
  rewrite app_nil_r, <- !app_assoc. cbn.
  rewrite parse_fields. cbn.
  rewrite (identifier_name _ Hc). cbn. done.
Qed.

Lemma parse_createCollection :
  parse (Statement.createCollection c)
  = Some [SCreateTable c; SCreateIndex (c +:+ "_body_idx") c].
Proof.
  unfold Statement.createCollection, sql.
  change "_body_idx
      on " with ("_body_idx" +:+ "
      on ").
  rewrite append_assoc.
  unfold parse, lex. lex_goal. cbn.
  rewrite !(identifier_name _ Hc). cbn.
  rewrite (identifier_index_name _ Hc). cbn. done.
Qed.
End Parsing.

(** ** The reference model: running the facade's statements *)

Section Running.
Import Pg Projection.

Lemma query_one text s params db :
  parse text = Some [s] →
  Pg.query text params db
  = match exec s params db with
    | (Ok rows, db') => (Ok rows, db')
    | (Throw e, _) => (Throw e, db)
    end.
Proof.
  intros Hp. unfold Pg.query. rewrite Hp. simpl.
  by destruct (exec s params db) as [[rows|e] db'].
Qed.

Lemma eval_column_id d : eval_column d "id" = Ok (CNum (doc_id d)).
Proof. reflexivity. Qed.
Lemma eval_column_created d :
  eval_column d "created" = Ok (CDate (doc_created d)).
Proof. reflexivity. Qed.
Lemma eval_column_updated d :
  eval_column d "updated" = Ok (CDate (doc_updated d)).
Proof. reflexivity. Qed.

Lemma project_star ds : project [IStar] ds = Ok (document <$> ds).
Proof.
  induction ds as [|d ds IH]; [done|].
  cbn [project eval_items eval_item]. rewrite IH.
  by rewrite app_nil_r.
Qed.

Lemma eval_pairs_fields d props :
  eval_pairs d (fields_args props)
  = Ok (fields_members (doc_body d) props).
Proof.
  induction props as [|p ps IH]; [done|].
  change (fields_args (p :: ps))
    with (EStr p :: EField "body" p :: fields_args ps).
  simpl. by rewrite IH.
Qed.

Lemma project_items props ds :
  project (items props) ds = Ok (projected props <$> ds).
Proof.
  induction ds as [|d ds IH]; [done|].
  cbn [project]. rewrite IH.
  assert (eval_items d (items props)
          = Ok ([("id", CNum (doc_id d)); ("created", CDate (doc_created d));
                 ("updated", CDate (doc_updated d))]
                ++ match props with
                   | None => doc_row d
                   | Some props =>
                       [("body", CJson (build_object
                          (fields_members (doc_body d) props)))]
                   end)) as ->.
  { unfold items. cbn [eval_items eval_item].
    rewrite eval_column_id, eval_column_created, eval_column_updated.
    destruct props as [props|]; cbn [eval_items eval_item].
    - rewrite eval_pairs_fields. by cbn.
    - by rewrite app_nil_r. }
  do 2 f_equal. by destruct props.
Qed.

Lemma bound_id id : bound (id_params id) "id" = Ok (SqlInt id).
Proof. reflexivity. Qed.
Lemma bound_criteria ms :
  bound (criteria_params (JObj ms)) "criteria" = Ok (SqlJsonb (JObj ms)).
Proof. reflexivity. Qed.
Lemma bound_body ms :
  bound (body_params (JObj ms)) "body" = Ok (SqlJsonb (JObj ms)).
Proof. reflexivity. Qed.
Lemma bound_update_id id body :
  bound (id_body_params id body) "id" = Ok (SqlInt id).
Proof. reflexivity. Qed.
Lemma bound_update_body id ms :
  bound (id_body_params id (JObj ms)) "body" = Ok (SqlJsonb (JObj ms)).
Proof. reflexivity. Qed.

Lemma filter_always {A} (l : list A) : List.filter (λ _, true) l = l.
Proof. induction l as [|x l IH]; simpl; by rewrite ?IH. Qed.

Lemma index_name_differs c : c ≠ c +:+ "_body_idx".
Proof.
  induction c as [|x c IH]; [done|].
  rewrite append_cons. by intros [= ?].
Qed.

Lemma undefined_table_missing : is_missing undefined_table = true.
Proof. reflexivity. Qed.

Lemma collection_name_identifier c :
  collection_name c = true → identifier c = true.
Proof.
  unfold collection_name.
  by intros [[[? _]%andb_true_iff _]%andb_true_iff _]%andb_true_iff.
Qed.

Lemma plain_field_quote_free p : plain_field p = true → quote_free p = true.
Proof.
  unfold plain_field, quote_free. apply all_chars_impl.
  intros x. unfold plain_char.
  by intros [[[_ ?]%andb_true_iff _]%andb_true_iff _]%andb_true_iff.
Qed.

Lemma plain_fields_quote_free props :
  plain_fields props = true → Forall (λ q, quote_free q = true) props.
Proof.
  unfold plain_fields. intros [H _]%andb_true_iff.
  rewrite forallb_forall in H. apply Forall_forall.
  intros q Hq%list_elem_of_In. by apply plain_field_quote_free, H.
Qed.


Variable c : string.
Hypothesis Hc : identifier c = true.

(** The document with the given id that a [limit 1] lookup finds. *)
Lemma pg_all db :
  Pg.query (Statement.all c) ∅ db
  = (match tables db !! c with
     | None => Throw undefined_table
     | Some t => Ok (document <$> merge_sort id_le (rows t))
     end, db).
Proof.
  rewrite (query_one _ _ _ _ (parse_all c Hc)).
  unfold exec, exec_select. cbn.
  destruct (tables db !! c) as [t|]; [|done].
  by rewrite filter_always, project_star.
Qed.

Lemma pg_find ms db :
  Pg.query (Statement.find c) (criteria_params (JObj ms)) db
  = (match tables db !! c with
     | None => Throw undefined_table
     | Some t =>
         Ok (document <$> merge_sort id_le
               (List.filter (λ d, jsonb_contains (doc_body d) (JObj ms))
                  (rows t)))
     end, db).
Proof.
  rewrite (query_one _ _ _ _ (parse_find c Hc)).
  unfold exec, exec_select. cbn [sel_table sel_where sel_order sel_limit
    sel_items eval_where].
  destruct (tables db !! c) as [t|]; [|done].
  by rewrite bound_criteria, project_star.
Qed.

Lemma pg_tryFindOne ms db :
  Pg.query (Statement.tryFindOne c) (criteria_params (JObj ms)) db
  = (match tables db !! c with
     | None => Throw undefined_table
     | Some t =>
         Ok (document <$> take 1
               (List.filter (λ d, jsonb_contains (doc_body d) (JObj ms))
                  (rows t)))
     end, db).
Proof.
  rewrite (query_one _ _ _ _ (parse_tryFindOne c Hc)).
  unfold exec, exec_select. cbn [sel_table sel_where sel_order sel_limit
    sel_items eval_where].
  destruct (tables db !! c) as [t|]; [|done].
  by rewrite bound_criteria, project_star.
Qed.


Lemma pg_tryGet props id db :
  from_option (Forall (λ q, quote_free q = true)) True props →
  Pg.query (Statement.tryGet (propsToColumns props) c) (id_params id) db
  = (match tables db !! c with
     | None => Throw undefined_table
     | Some t =>
         Ok (projected props <$> take 1
               (List.filter (λ d, Z.eqb (doc_id d) id) (rows t)))
     end, db).
Proof.
  intros Hq.
  assert (parse (Statement.tryGet (propsToColumns props) c)
          = Some [SSelect (by_id props c)]) as Hp.
  { destruct props as [props|];
      [by apply parse_tryGet_fields | by apply parse_tryGet_star]. }
  rewrite (query_one _ _ _ _ Hp).
  unfold exec, exec_select, by_id. cbn [sel_table sel_where sel_order
    sel_limit sel_items eval_where].
  destruct (tables db !! c) as [t|]; [|done].
  by rewrite bound_id, project_items.
Qed.

Lemma pg_insert ms db :
  Pg.query (Statement.insert c) (body_params (JObj ms)) db
  = exec_insert c "body" (body_params (JObj ms)) db.
Proof.
  rewrite (query_one _ _ _ _ (parse_insert c Hc)).
  unfold exec, exec_insert.
  destruct (tables db !! c) as [t|]; [|done].
  by rewrite bound_body.
Qed.

Lemma pg_update id ms db :
  Pg.query (Statement.update c) (id_body_params id (JObj ms)) db
  = exec_update c "body" "id" (id_body_params id (JObj ms)) db.
Proof.
  rewrite (query_one _ _ _ _ (parse_update c Hc)).
  unfold exec, exec_update.
  destruct (tables db !! c) as [t|]; [|done].
  by rewrite bound_update_id, bound_update_body.
Qed.

Lemma pg_createCollection db :
  Pg.query (Statement.createCollection c) ∅ db
  = if relation_exists c db then (Throw duplicate_table, db)
    else if relation_exists (c +:+ "_body_idx") db
         then (Throw duplicate_table, db)
         else (Ok [],
               {| tables := <[c := {| rows := []; next_id := 1 |}]>
                              (tables db);
                  indexes := <[c +:+ "_body_idx" := c]> (indexes db);
                  clock := clock db |}).
Proof.
  unfold Pg.query. rewrite (parse_createCollection c Hc).
  cbn [exec_all exec]. unfold exec_create_table.
  destruct (relation_exists c db) eqn:Hrel; [done|].
  cbn [exec_all exec]. unfold exec_create_index, set_table.
  cbn [tables indexes clock]. rewrite lookup_insert_eq.
  assert (relation_exists (c +:+ "_body_idx")
            {| tables := <[c := {| rows := []; next_id := 1 |}]> (tables db);
               indexes := indexes db; clock := clock db |}
          = relation_exists (c +:+ "_body_idx") db) as ->.
  { unfold relation_exists. cbn [tables indexes].
    rewrite lookup_insert_ne; [done|]. apply index_name_differs. }
  by destruct (relation_exists (c +:+ "_body_idx") db).
Qed.
End Running.

(** ** Stored documents: listing, searching, legacy lookup, provisioning *)

Section StoredDocuments.
Import Pg Projection.

Local Instance id_le_transitive : Transitive id_le.
Proof. unfold id_le. intros x y z. lia. Qed.

Local Instance id_le_total : Total id_le.
Proof. unfold id_le. intros x y. lia. Qed.










(** C5, as amended.  For every collection name and on every execution
    layer, provisioning sends one creation statement and classifies
    nothing: a failure of that statement, whatever its code, is the
    failure of [createCollection]; and when [insert] provisions after a
    42P01 failure and the creation statement fails, that failure is the
    failure of [insert], which sends nothing more.  The statement is a
    plain [create table] followed by a plain [create index].  On the
    reference database, for a collection whose table exists it fails with
    [relation already exists] (42P07) and leaves the database as it was;
    with both names free it succeeds. *)
Theorem createCollection_fails_on_existing_relation (db : Db)
    (c : string) (body : Json) :
  (∀ W (pg : Postgres W) (w : W),
     Database.createCollection (pg := Traced.query pg) c (w, [])
     = match pg (Statement.createCollection c) ∅ w with
       | (Ok _, w') =>
           (Ok (), (w', [(Statement.createCollection c, ∅)]))
       | (Throw e, w') =>
           (Throw e, (w', [(Statement.createCollection c, ∅)]))
       end)
  ∧ (∀ W (pg : Postgres W) (w w1 w2 : W) (e e2 : Error),
       pg (Statement.insert c) (body_params body) w = (Throw e, w1) →
       error_code e = Some "42P01" →
       pg (Statement.createCollection c) ∅ w1 = (Throw e2, w2) →
       Database.insert (pg := Traced.query pg) c body (w, [])
       = (Throw e2,
          (w2, [(Statement.insert c, body_params body);
                (Statement.createCollection c, ∅)])))
  ∧ (collection_name c = true →
     parse (Statement.createCollection c)
     = Some [SCreateTable c; SCreateIndex (c +:+ "_body_idx") c])
  ∧ (collection_name c = true →
     is_Some (tables db !! c) →
     Database.createCollection (pg := Pg.query) c db
     = (Throw duplicate_table, db))
  ∧ (collection_name c = true →
     free c db = true →
     free (c +:+ "_body_idx") db = true →
     Database.createCollection (pg := Pg.query) c db
     = (Ok (), provisioned c db))
  ∧ error_code duplicate_table = Some "42P07".
Proof.
  split_and!.
  - intros W pg w.
    unfold Database.createCollection, bind, pg_query, ret, Traced.query.
    by destruct (pg _ _ w) as [[rows|e] w'].
  - intros W pg w w1 w2 e e2 E1 Ec E2.
    unfold Database.insert, Database.changeCollection,
      Database.createCollection, bind, try_catch, pg_query, ret, throw.
    unfold Traced.query at 1. rewrite E1. simpl.
    rewrite code_differs_code, bool_decide_eq_true_2 by done. simpl.
    unfold Traced.query at 1. by rewrite E2.
  - intros Hc%collection_name_identifier. by apply parse_createCollection.
  - intros Hc%collection_name_identifier Ht.
    unfold Database.createCollection, bind, pg_query, ret.
    rewrite (pg_createCollection c Hc).
    unfold relation_exists at 1.
    by rewrite (bool_decide_eq_true_2 _ Ht).
  - intros Hc%collection_name_identifier Hfree Hidx.
    unfold Database.createCollection, bind, pg_query, ret.
    rewrite (pg_createCollection c Hc).
    unfold free in Hfree, Hidx. apply negb_true_iff in Hfree, Hidx.
    by rewrite Hfree, Hidx.
  - done.
Qed.

Lemma createCollection_fails_on_existing_relation_witness :
  collection_name "notes" = true
  ∧ is_Some (tables Sample.db !! "notes")
  ∧ free "notes" Pg.empty = true
  ∧ free ("notes" +:+ "_body_idx") Pg.empty = true
  ∧ Database.createCollection (pg := Pg.query) "notes" Pg.empty
    = (Ok (), provisioned "notes" Pg.empty)
  ∧ Database.createCollection (pg := Pg.query) "notes" Sample.db
    = (Throw duplicate_table, Sample.db).
Proof.
  assert (Ht : is_Some (tables Sample.db !! "notes")) by (by eexists).
  split; [reflexivity|]. split; [exact Ht|].
  split; [reflexivity|]. split; [reflexivity|]. split.
  - destruct (createCollection_fails_on_existing_relation Pg.empty "notes"
                JNull) as (_ & _ & _ & _ & Hnew & _).
    exact (Hnew eq_refl eq_refl eq_refl).
  - destruct (createCollection_fails_on_existing_relation Sample.db "notes"
                JNull) as (_ & _ & _ & Hdup & _).
    exact (Hdup eq_refl Ht).
Defined.
End StoredDocuments.


(** C5 as stated fails: provisioning a collection whose table exists
    fails with [relation already exists]; and of two sessions that both
    find the collection missing, the one that provisions second has its
    [insert] fail with that error. *)
Lemma second_provisioner_fails :
  Database.createCollection (pg := Pg.query) "notes" Sample.db
    = (Throw Pg.duplicate_table, Sample.db)
  ∧ (Database.insert (pg := Racing.query) "notes" (JObj [("a", JNum 2)])
       (Pg.empty,
        [λ db, (Database.insert (pg := Pg.query) "notes"
                  (JObj [("a", JNum 1)]) db).2])).1
    = Throw Pg.duplicate_table
  ∧ is_missing Pg.duplicate_table = false.
Proof. split_and!; vm_compute; reflexivity. Qed.

(** C3 as stated fails: [update] and [raw] on a collection without a
    table, and an [insert] whose retry meets a missing table again, end
    in the raw [tableDoesNotExist] error. *)
Lemma update_raw_and_retried_insert_surface_missing_table :
  Database.update (pg := Pg.query) "notes" 1 (JObj []) Pg.empty
    = (Throw Pg.undefined_table, Pg.empty)
  ∧ Database.raw (pg := Pg.query) ∅ (Statement.all "notes") Pg.empty
    = (Throw Pg.undefined_table, Pg.empty)
  ∧ Database.insert (pg := Scripted.query) "notes" (JObj [])
      [Throw Pg.undefined_table; Ok []; Throw Pg.undefined_table]
    = (Throw Pg.undefined_table, [])
  ∧ is_missing Pg.undefined_table = true.
Proof. split_and!; vm_compute; reflexivity. Qed.

(** ** Update and projection on the reference database *)

Section UpdateAndProjection.
Import Pg Projection.

Lemma filter_update_doc id body now ds :
  List.filter (λ d, Z.eqb (doc_id d) id) (update_doc id body now <$> ds)
  = changed body now <$> List.filter (λ d, Z.eqb (doc_id d) id) ds.
Proof.
  induction ds as [|d ds IH]; [done|].
  rewrite fmap_cons. cbn [List.filter]. rewrite IH.
  unfold update_doc at 1.
  destruct (Z.eqb (doc_id d) id) eqn:Hd; cbn [doc_id]; rewrite Hd; [|done].
  rewrite fmap_cons. f_equal. unfold update_doc. by rewrite Hd.
Qed.








End UpdateAndProjection.


(** ** Field names in the statement text *)

Section FieldNames.
Import Pg Projection.






End FieldNames.

(** ** The facade at work on the reference database *)

Section Scenarios.
Import Pg.

Example first_insert_provisions :
  (Sample.three_notes Pg.empty).2
  = {| tables := {[ "notes" :=
         {| rows := [ {| doc_id := 1;
                         doc_body := JObj [("a", JNum 1); ("b", JNum 2)];
                         doc_created := 0; doc_updated := 0 |};
                      {| doc_id := 2;
                         doc_body := JObj [("a", JNum 1); ("b", JNum 3)];
                         doc_created := 0; doc_updated := 0 |};
                      {| doc_id := 3;
                         doc_body := JObj [("a", JNum 2); ("b", JNum 2)];
                         doc_created := 0; doc_updated := 0 |} ];
            next_id := 4 |} ]};
       indexes := {[ "notes_body_idx" := "notes" ]};
       clock := 0 |}.
Proof. vm_compute. reflexivity. Qed.

Example never_written_collection_reads_empty :
  Database.all (pg := Pg.query) "notes" Pg.empty = (Ok [], Pg.empty)
  ∧ Database.find (pg := Pg.query) "notes" (JObj [("a", JNum 1)]) Pg.empty
    = (Ok [], Pg.empty)
  ∧ Database.tryGet (pg := Pg.query) "notes" 1 None Pg.empty
    = (Ok None, Pg.empty)
  ∧ Database.get (pg := Pg.query) "notes" 1 None Pg.empty
    = (Throw (MissingRecordError "notes" (JObj [("id", JNum 1)])), Pg.empty)
  ∧ Database.findOne (pg := Pg.query) "notes" (JObj [("a", JNum 1)]) Pg.empty
    = (Throw (MissingRecordError "notes" (JObj [("a", JNum 1)])), Pg.empty).
Proof. split_and!; vm_compute; reflexivity. Qed.

Example containment_search :
  (Database.find (pg := Pg.query) "notes" (JObj [("a", JNum 1)])
     (Sample.three_notes Pg.empty).2).1
  = Ok (document <$>
          [ {| doc_id := 1; doc_body := JObj [("a", JNum 1); ("b", JNum 2)];
               doc_created := 0; doc_updated := 0 |};
            {| doc_id := 2; doc_body := JObj [("a", JNum 1); ("b", JNum 3)];
               doc_created := 0; doc_updated := 0 |} ]).
Proof. vm_compute. reflexivity. Qed.

Example projection_of_one_field :
  (Database.get (pg := Pg.query) "notes" 2 (Some ["b"])
     (Sample.three_notes Pg.empty).2).1
  = Ok (<["body" := CJson (JObj [("b", JNum 3)])]>
          (document {| doc_id := 2; doc_body := JNull;
                       doc_created := 0; doc_updated := 0 |})).
Proof. vm_compute. reflexivity. Qed.

Example nested_criteria_match_by_containment :
  (Database.find (pg := Pg.query) "notes"
     (JObj [("a", JObj [("x", JNum 1)])]) Sample.db).1
  = Ok [document Sample.nested].
Proof. vm_compute. reflexivity. Qed.
End Scenarios.

(** * Further properties *)

(** ** The legacy module on every execution layer *)

Section LegacyModule.
Context {W : Type} (pg : Postgres W).

(** X1.  The legacy reads follow the read path: each sends one select
    and none of them ever sends the provisioning statement; a failure
    whose code is 42P01 or an empty row set gives the empty sequence from
    [all] and [find] and null from [get], [findOne] and [link], which
    never fail with [MissingRecordError]; a failure with another code, or
    with none, is re-thrown unchanged. *)
Theorem legacy_reads_return_null (collection : string) (id : Z)
    (criteria : Json) (w : W) :
  Legacy.all (pg := Traced.query pg) collection (w, [])
    = read_path pg (Statement.all collection) ∅ Ok w
  ∧ Legacy.find (pg := Traced.query pg) collection criteria (w, [])
    = read_path pg (Statement.find collection) (criteria_params criteria)
        Ok w
  ∧ Legacy.get (pg := Traced.query pg) collection id (w, [])
    = read_path pg (Statement.legacyGet collection) (id_params id) or_null w
  ∧ Legacy.findOne (pg := Traced.query pg) collection criteria (w, [])
    = read_path pg (Statement.tryFindOne collection)
        (criteria_params criteria) or_null w
  ∧ Legacy.link (pg := Traced.query pg) collection id (w, [])
    = read_path pg (Statement.link collection) (id_params id) or_null w
  ∧ (∀ c', Statement.createCollection c' ∉
        [Statement.all collection; Statement.find collection;
         Statement.legacyGet collection; Statement.tryFindOne collection;
         Statement.link collection])
  ∧ (∀ A (found : list Row → Result A) text params,
       read_path pg text params found w
       = match pg text params w with
         | (Ok rows, w') => (found rows, (w', [(text, params)]))
         | (Throw (ExecError (Some "42P01") message), w') =>
             (found [], (w', [(text, params)]))
         | (Throw e, w') => (Throw e, (w', [(text, params)]))
         end)
  ∧ or_null [] = Ok None.
Proof.
  split_and!.
  - apply (queryCollection_read_path pg collection).
  - apply (queryCollection_read_path pg collection).
  - apply (first_row_read_path pg collection).
  - apply (first_row_read_path pg collection).
  - apply (first_row_read_path pg collection).
  - intros c' Hin.
    apply (createCollection_not_a_read c' "*" collection).
    revert Hin. rewrite !elem_of_cons, !elem_of_nil. tauto.
  - intros A found text params. apply read_path_by_code.
  - done.
Qed.

(** X2.  Apart from [get] and [link], the legacy module is the current
    one under other names: on every execution layer legacy [all], [find],
    [insert], [update] and [raw] return what the current ones return, the
    legacy [findOne] is the current [tryFindOne], and the current
    [findOne] is the legacy [findOne] made strict. *)
Theorem legacy_module_agrees_with_current (collection : string) (id : Z)
    (criteria body : Json) (params : Params) (text : string) (w : W) :
  Legacy.all collection w = Database.all collection w
  ∧ Legacy.find collection criteria w = Database.find collection criteria w
  ∧ Legacy.findOne collection criteria w
    = Database.tryFindOne collection criteria w
  ∧ Database.findOne collection criteria w
    = strict collection criteria (Legacy.findOne collection criteria w)
  ∧ Legacy.insert collection body w = Database.insert collection body w
  ∧ Legacy.update collection id body w
    = Database.update collection id body w
  ∧ Legacy.raw params text w = Database.raw params text w.
Proof.
  split_and!; try reflexivity.
  change (Legacy.findOne collection criteria w)
    with (Database.tryFindOne collection criteria w).
  unfold Database.findOne, bind, strict.
  by destruct (Database.tryFindOne collection criteria w)
    as [[[r|]|e] w'].
Qed.
End LegacyModule.

(** ** Inserting on the reference database *)

Section Inserting.
Import Pg Projection.

Lemma pg_select_keeps_db text q params db :
  parse text = Some [SSelect q] → (Pg.query text params db).2 = db.
Proof.
  intros Hp. rewrite (query_one _ _ _ _ Hp). simpl.
  by destruct (exec_select q params db).
Qed.

Lemma exec_insert_failure table param params db e db' :
  exec_insert table param params db = (Throw e, db') → db' = db.
Proof.
  unfold exec_insert. intros H.
  destruct (tables db !! table); [|by simplify_eq].
  destruct (bound params param) as [[]|]; by simplify_eq.
Qed.

Lemma pg_insert_any c body db :
  identifier c = true →
  Pg.query (Statement.insert c) (body_params body) db
  = exec_insert c "body" (body_params body) db.
Proof.
  intros Hc. rewrite (query_one _ _ _ _ (parse_insert c Hc)).
  unfold exec.
  destruct (exec_insert c "body" (body_params body) db) as [[rows|e] db']
    eqn:He; [done|].
  by rewrite (exec_insert_failure _ _ _ _ _ _ He).
Qed.

Lemma document_id d : row_id (document d) = Some (doc_id d).
Proof. reflexivity. Qed.

Lemma free_table c db : free c db = true → tables db !! c = None.
Proof.
  unfold free, relation_exists. intros H%negb_true_iff.
  apply orb_false_iff in H as [H _].
  apply bool_decide_eq_false in H.
  by destruct (tables db !! c); [destruct H; eexists|].
Qed.

(** What [insert] does with an object, by the state of the names. *)
Lemma insert_cases c ms db :
  identifier c = true →
  Database.insert (pg := Pg.query) c (JObj ms) db
  = match tables db !! c with
    | Some t =>
        (Ok (Some (document (fresh (JObj ms) (clock db) t))),
         set_table c (appended (JObj ms) (clock db) t) db)
    | None =>
        if free c db && free (c +:+ "_body_idx") db
        then (Ok (Some (document (fresh (JObj ms) (clock db) new_table))),
              set_table c (appended (JObj ms) (clock db) new_table)
                (provisioned c db))
        else (Throw duplicate_table, db)
    end.
Proof.
  intros Hc.
  unfold Database.insert, Database.changeCollection,
    Database.createCollection, bind, try_catch, pg_query, ret, throw.
  rewrite (pg_insert c Hc). unfold exec_insert at 1.
  destruct (tables db !! c) as [t|] eqn:Ht.
  { by rewrite bound_body. }
  cbn. rewrite (pg_createCollection c Hc). unfold free.
  destruct (relation_exists c db); [done|].
  destruct (relation_exists (c +:+ "_body_idx") db); [done|].
  cbn. rewrite (pg_insert c Hc). unfold exec_insert.
  cbn [tables]. rewrite lookup_insert_eq, bound_body. done.
Qed.

(** X3.  On a well-formed database, into an existing collection whose
    serial column has a value left, [insert] adds one row: the document
    returned has the table's next serial id, the given body, and
    [created] and [updated] both equal to the current time; the table
    then holds that row besides the rows it had, the counter has moved on
    by one, and no other table changes. *)
Theorem insert_appends_fresh_document (db : Db) (c : string) (t : Table)
    (ms : list (string * Json)) :
  collection_name c = true →
  storable (JObj ms) = true →
  db_ok db →
  tables db !! c = Some t →
  next_id t ≤ serial_max →
  ∃ r db' t',
    Database.insert (pg := Pg.query) c (JObj ms) db = (Ok (Some r), db')
    ∧ r = {[ "id" := CNum (next_id t);
             "body" := CJson (JObj ms);
             "created" := CDate (clock db);
             "updated" := CDate (clock db) ]}
    ∧ tables db' !! c = Some t'
    ∧ rows t' ≡ₚ fresh (JObj ms) (clock db) t :: rows t
    ∧ next_id t' = next_id t + 1
    ∧ (∀ c', c' ≠ c → tables db' !! c' = tables db !! c')
    ∧ indexes db' = indexes db.
Proof.
  intros Hc%collection_name_identifier _ _ Ht _.
  exists (document (fresh (JObj ms) (clock db) t)),
    (set_table c (appended (JObj ms) (clock db) t) db),
    (appended (JObj ms) (clock db) t).
  split_and!.
  - by rewrite (insert_cases c ms db Hc), Ht.
  - reflexivity.
  - cbn. apply lookup_insert_eq.
  - cbn. by rewrite Permutation_app_comm.
  - done.
  - intros c' Hne. cbn. by apply lookup_insert_ne.
  - done.
Qed.

Lemma insert_appends_fresh_document_witness :
  collection_name "notes" = true
  ∧ storable (JObj [("k", JNum 7)]) = true
  ∧ db_ok Sample.db
  ∧ tables Sample.db !! "notes" = Some Sample.notes
  ∧ next_id Sample.notes ≤ serial_max
  ∧ ∃ db',
      Database.insert (pg := Pg.query) "notes" (JObj [("k", JNum 7)])
        Sample.db
      = (Ok (Some {[ "id" := CNum 5;
                     "body" := CJson (JObj [("k", JNum 7)]);
                     "created" := CDate 50;
                     "updated" := CDate 50 ]}), db').
Proof.
  assert (Hok : db_ok Sample.db)
    by (apply (bool_decide_unpack _); vm_compute; exact I).
  assert (Hn : next_id Sample.notes ≤ serial_max)
    by (unfold serial_max; cbn; lia).
  split; [reflexivity|]. split; [reflexivity|]. split; [exact Hok|].
  split; [reflexivity|]. split; [exact Hn|].
  destruct (insert_appends_fresh_document Sample.db "notes" Sample.notes
              [("k", JNum 7)] eq_refl eq_refl Hok eq_refl Hn)
    as (r & db' & t' & Hins & -> & _).
  exists db'. exact Hins.
Defined.

(** X4.  Into a collection whose name and index name are both free,
    [insert] first provisions: afterwards the table exists with exactly
    the inserted document, which has id 1 and the given body, and the
    index [<collection>_body_idx] exists on it. *)
Theorem first_insert_provisions_collection (db : Db) (c : string)
    (ms : list (string * Json)) :
  collection_name c = true →
  storable (JObj ms) = true →
  free c db = true →
  free (c +:+ "_body_idx") db = true →
  ∃ r db',
    Database.insert (pg := Pg.query) c (JObj ms) db = (Ok (Some r), db')
    ∧ r = {[ "id" := CNum 1;
             "body" := CJson (JObj ms);
             "created" := CDate (clock db);
             "updated" := CDate (clock db) ]}
    ∧ tables db' !! c
      = Some {| rows := [fresh (JObj ms) (clock db) new_table];
                next_id := 2 |}
    ∧ indexes db' !! (c +:+ "_body_idx") = Some c
    ∧ (∀ c', c' ≠ c → tables db' !! c' = tables db !! c').
Proof.
  intros Hc%collection_name_identifier _ Hfree Hidx. eexists _, _. split.
  { rewrite (insert_cases c ms db Hc), (free_table c db Hfree), Hfree, Hidx.
    reflexivity. }
  split_and!; try reflexivity.
  - cbn. apply lookup_insert_eq.
  - cbn. apply lookup_insert_eq.
  - intros c' Hne. cbn. by rewrite !lookup_insert_ne.
Qed.

Lemma first_insert_provisions_collection_witness :
  collection_name "notes" = true
  ∧ storable (JObj [("k", JNum 7)]) = true
  ∧ free "notes" Pg.empty = true
  ∧ free ("notes" +:+ "_body_idx") Pg.empty = true
  ∧ ∃ db',
      Database.insert (pg := Pg.query) "notes" (JObj [("k", JNum 7)])
        Pg.empty
      = (Ok (Some {[ "id" := CNum 1;
                     "body" := CJson (JObj [("k", JNum 7)]);
                     "created" := CDate 0;
                     "updated" := CDate 0 ]}), db').
Proof.
  split; [reflexivity|]. split; [reflexivity|].
  split; [reflexivity|]. split; [reflexivity|].
  destruct (first_insert_provisions_collection Pg.empty "notes"
              [("k", JNum 7)] eq_refl eq_refl eq_refl eq_refl)
    as (r & db' & Hins & -> & _).
  exists db'. exact Hins.
Defined.

(** X6.  A failing [insert] may still create the collection: with a
    [null] body into a collection whose names are free, the first attempt
    fails on the missing table, the collection is provisioned, and the
    retry fails on the not-null column (23502); that failure is returned
    and the collection stays, with its index and without rows. *)
Theorem failed_insert_leaves_collection (db : Db) (c : string) :
  collection_name c = true →
  free c db = true →
  free (c +:+ "_body_idx") db = true →
  ∃ db' t',
    Database.insert (pg := Pg.query) c JNull db
    = (Throw not_null_violation, db')
    ∧ error_code not_null_violation = Some "23502"
    ∧ tables db !! c = None
    ∧ tables db' !! c = Some t'
    ∧ rows t' = []
    ∧ indexes db' !! (c +:+ "_body_idx") = Some c
    ∧ (∀ c', c' ≠ c → tables db' !! c' = tables db !! c').
Proof.
  intros Hc%collection_name_identifier Hfree Hidx.
  exists (provisioned c db), new_table. split_and!.
  - unfold Database.insert, Database.changeCollection,
      Database.createCollection, bind, try_catch, pg_query, ret, throw.
    rewrite (pg_insert_any c JNull db Hc). unfold exec_insert at 1.
    rewrite (free_table c db Hfree). cbn.
    rewrite (pg_createCollection c Hc).
    unfold free in Hfree, Hidx.
    apply negb_true_iff in Hfree, Hidx. rewrite Hfree, Hidx. cbn.
    rewrite (pg_insert_any c JNull _ Hc). unfold exec_insert.
    cbn [tables]. by rewrite lookup_insert_eq.
  - done.
  - by apply free_table.
  - cbn. apply lookup_insert_eq.
  - done.
  - cbn. apply lookup_insert_eq.
  - intros c' Hne. cbn. by apply lookup_insert_ne.
Qed.

Lemma failed_insert_leaves_collection_witness :
  collection_name "notes" = true
  ∧ free "notes" Pg.empty = true
  ∧ free ("notes" +:+ "_body_idx") Pg.empty = true
  ∧ ∃ db' t',
      Database.insert (pg := Pg.query) "notes" JNull Pg.empty
      = (Throw not_null_violation, db')
      ∧ tables db' !! "notes" = Some t'
      ∧ rows t' = [].
Proof.
  split; [reflexivity|]. split; [reflexivity|]. split; [reflexivity|].
  destruct (failed_insert_leaves_collection Pg.empty "notes"
              eq_refl eq_refl eq_refl)
    as (db' & t' & Hins & _ & _ & Ht' & Hrows & _).
  exists db', t'. split; [exact Hins|]. split; [exact Ht' | exact Hrows].
Defined.

(** X7.  Two successful inserts into a collection, one right after the
    other, return consecutive ids. *)
Theorem successive_inserts_have_consecutive_ids (db db1 db2 : Db)
    (c : string) (m1 m2 : list (string * Json)) (r1 r2 : Row) :
  identifier c = true →
  Database.insert (pg := Pg.query) c (JObj m1) db = (Ok (Some r1), db1) →
  Database.insert (pg := Pg.query) c (JObj m2) db1 = (Ok (Some r2), db2) →
  ∃ n, row_id r1 = Some n ∧ row_id r2 = Some (n + 1).
Proof.
  intros Hc H1 H2.
  rewrite (insert_cases c m1 db Hc) in H1.
  rewrite (insert_cases c m2 db1 Hc) in H2.
  assert (∃ t, tables db1 !! c = Some (appended (JObj m1) (clock db) t)
               ∧ r1 = document (fresh (JObj m1) (clock db) t))
    as (t & Ht1 & ->).
  { destruct (tables db !! c) as [t|].
    - exists t. simplify_eq. split; [|done]. cbn. apply lookup_insert_eq.
    - destruct (free c db && free (c +:+ "_body_idx") db); [|done].
      exists new_table. simplify_eq. split; [|done].
      cbn. apply lookup_insert_eq. }
  rewrite Ht1 in H2. simplify_eq.
  exists (next_id t). by rewrite !document_id.
Qed.

Lemma successive_inserts_have_consecutive_ids_witness :
  ∃ r1 r2 db1 db2,
    identifier "notes" = true
    ∧ Database.insert (pg := Pg.query) "notes" (JObj []) Pg.empty
      = (Ok (Some r1), db1)
    ∧ Database.insert (pg := Pg.query) "notes" (JObj []) db1
      = (Ok (Some r2), db2)
    ∧ ∃ n, row_id r1 = Some n ∧ row_id r2 = Some (n + 1).
Proof.
  eexists _, _, _, _.
  assert (H1 : Database.insert (pg := Pg.query) "notes" (JObj []) Pg.empty
               = (Ok (Some (document {| doc_id := 1; doc_body := JObj [];
                                        doc_created := 0;
                                        doc_updated := 0 |})),
                  (Database.insert (pg := Pg.query) "notes" (JObj [])
                     Pg.empty).2)) by (vm_compute; reflexivity).
  assert (H2 : Database.insert (pg := Pg.query) "notes" (JObj [])
                 (Database.insert (pg := Pg.query) "notes" (JObj [])
                    Pg.empty).2
               = (Ok (Some (document {| doc_id := 2; doc_body := JObj [];
                                        doc_created := 0;
                                        doc_updated := 0 |})),
                  (Database.insert (pg := Pg.query) "notes" (JObj [])
                     (Database.insert (pg := Pg.query) "notes" (JObj [])
                        Pg.empty).2).2)) by (vm_compute; reflexivity).
  split; [reflexivity|]. split; [exact H1|]. split; [exact H2|].
  exact (successive_inserts_have_consecutive_ids _ _ _ "notes" [] [] _ _
           eq_refl H1 H2).
Defined.
End Inserting.

(** ** Well-formedness and round trips on the reference database *)

Section RoundTrips.
Import Pg Projection.

Lemma table_ok_new now : table_ok now new_table.
Proof. split_and!; [done|constructor|constructor]. Qed.

Lemma table_ok_appended now t ms :
  table_ok now t → table_ok now (appended (JObj ms) now t).
Proof.
  intros (Hnext & Hdocs & Hids). unfold appended, table_ok. cbn.
  split_and!.
  - lia.
  - apply Forall_app. split.
    + eapply Forall_impl; [exact Hdocs|].
      intros d (Hid & Hobj & Htime). unfold doc_ok. split_and!; auto; lia.
    + constructor; [|constructor]. unfold doc_ok, fresh. cbn.
      split_and!; auto; lia.
  - rewrite fmap_app. apply NoDup_app. split_and!; [done| |].
    + intros id Hin [->|[]%elem_of_nil]%elem_of_cons.
      apply list_elem_of_fmap in Hin as (d & Hd & Hin).
      rewrite Forall_forall in Hdocs. destruct (Hdocs d Hin) as (? & _).
      unfold fresh in Hd. cbn in Hd. lia.
    + apply NoDup_singleton.
Qed.

Lemma update_doc_id id body now d :
  doc_id (update_doc id body now d) = doc_id d.
Proof. unfold update_doc. by destruct (Z.eqb (doc_id d) id). Qed.

Lemma table_ok_updated now t id ms :
  table_ok now t →
  table_ok now {| rows := update_doc id (JObj ms) now <$> rows t;
                  next_id := next_id t |}.
Proof.
  intros (Hnext & Hdocs & Hids). unfold table_ok. cbn. split_and!.
  - done.
  - apply Forall_fmap. eapply Forall_impl; [exact Hdocs|].
    intros d (Hid & Hobj & Htime). unfold compose, doc_ok, update_doc.
    destruct (Z.eqb (doc_id d) id); cbn; split_and!; auto; lia.
  - rewrite <- list_fmap_compose.
    erewrite list_fmap_ext; [exact Hids|].
    intros i d _. apply update_doc_id.
Qed.

Lemma db_ok_set_table c t db :
  db_ok db → table_ok (clock db) t → db_ok (set_table c t db).
Proof. intros Hdb Ht. unfold db_ok. cbn. by apply map_Forall_insert_2. Qed.

Lemma db_ok_provisioned c db : db_ok db → db_ok (provisioned c db).
Proof.
  intros Hdb. unfold db_ok. cbn.
  apply map_Forall_insert_2; [apply table_ok_new|done].
Qed.

Lemma db_ok_table db c t :
  db_ok db → tables db !! c = Some t → table_ok (clock db) t.
Proof. intros Hdb Ht. exact (Hdb c t Ht). Qed.

Lemma update_cases c id ms db :
  identifier c = true →
  Database.update (pg := Pg.query) c id (JObj ms) db
  = match tables db !! c with
    | None => (Throw undefined_table, db)
    | Some t =>
        (Ok (document <$> head (changed (JObj ms) (clock db)
                                  <$> with_id id t)),
         set_table c
           {| rows := update_doc id (JObj ms) (clock db) <$> rows t;
              next_id := next_id t |} db)
    end.
Proof.
  intros Hc. unfold Database.update, Database.raw, bind, pg_query, ret.
  rewrite (pg_update c Hc). unfold exec_update.
  destruct (tables db !! c) as [t|]; [|done].
  rewrite bound_update_body, bound_update_id, filter_update_doc.
  unfold with_id. by destruct (List.filter _ (rows t)).
Qed.

Lemma get_cases c id db :
  identifier c = true →
  Database.get (pg := Pg.query) c id None db
  = match tables db !! c with
    | None =>
        (Throw (MissingRecordError c (JObj [("id", JNum id)])), db)
    | Some t =>
        match with_id id t with
        | [] => (Throw (MissingRecordError c (JObj [("id", JNum id)])), db)
        | d :: _ => (Ok (document d), db)
        end
    end.
Proof.
  intros Hc.
  unfold Database.get, Database.tryGet, Database.queryCollection, bind,
    try_catch, pg_query, ret, throw.
  rewrite (pg_tryGet c Hc None id db I).
  destruct (tables db !! c) as [t|]; [|done].
  unfold with_id. by destruct (List.filter _ (rows t)).
Qed.

Lemma with_id_none id t now :
  Forall (doc_ok now id) (rows t) → with_id id t = [].
Proof.
  unfold with_id. induction (rows t) as [|d ds IH]; [done|].
  intros Hds. inversion Hds as [|? ? (Hid & _) Hds']; subst.
  cbn. destruct (Z.eqb_spec (doc_id d) id) as [Heq|_]; [lia|by apply IH].
Qed.

Lemma filter_app_list {A} (f : A → bool) (l1 l2 : list A) :
  List.filter f (l1 ++ l2) = List.filter f l1 ++ List.filter f l2.
Proof.
  induction l1 as [|x l1 IH]; [done|].
  cbn. rewrite IH. by destruct (f x).
Qed.

(** X8.  The facade keeps the reference database well formed: after
    [insert], [update] or [createCollection], whether they succeed or
    fail, ids are still unique and below the serial counter, bodies are
    objects, and no row is updated before its creation or after the
    current time.  The empty database is well formed. *)
Theorem facade_keeps_database_well_formed (db : Db) (c : string) (id : Z)
    (ms : list (string * Json)) :
  identifier c = true →
  db_ok db →
  db_ok (Database.insert (pg := Pg.query) c (JObj ms) db).2
  ∧ db_ok (Database.update (pg := Pg.query) c id (JObj ms) db).2
  ∧ db_ok (Database.createCollection (pg := Pg.query) c db).2
  ∧ db_ok Pg.empty.
Proof.
  intros Hc Hdb. split_and!.
  - rewrite (insert_cases c ms db Hc).
    destruct (tables db !! c) as [t|] eqn:Ht.
    + cbn [snd]. apply db_ok_set_table; [done|].
      apply table_ok_appended. by eapply db_ok_table.
    + destruct (free c db && free (c +:+ "_body_idx") db); [|done].
      cbn [snd]. apply db_ok_set_table; [by apply db_ok_provisioned|].
      apply table_ok_appended, table_ok_new.
  - rewrite (update_cases c id ms db Hc).
    destruct (tables db !! c) as [t|] eqn:Ht; [|done].
    cbn [snd]. apply db_ok_set_table; [done|].
    apply table_ok_updated. by eapply db_ok_table.
  - unfold Database.createCollection, bind, pg_query, ret.
    rewrite (pg_createCollection c Hc).
    destruct (relation_exists c db); [done|].
    destruct (relation_exists (c +:+ "_body_idx") db); [done|].
    by apply db_ok_provisioned.
  - apply map_Forall_empty.
Qed.

Lemma facade_keeps_database_well_formed_witness :
  identifier "notes" = true
  ∧ db_ok Sample.db
  ∧ db_ok (Database.insert (pg := Pg.query) "notes" (JObj []) Sample.db).2
  ∧ db_ok (Database.update (pg := Pg.query) "notes" 3 (JObj []) Sample.db).2.
Proof.
  assert (Hok : db_ok Sample.db)
    by (apply (bool_decide_unpack _); vm_compute; exact I).
  split; [reflexivity|]. split; [exact Hok|].
  destruct (facade_keeps_database_well_formed Sample.db "notes" 3 []
              eq_refl Hok) as (Hins & Hupd & _).
  split; [exact Hins | exact Hupd].
Defined.

(** X9.  Insert then get: on a well-formed database, into a collection
    that exists with a serial value left, or whose names are both free,
    [insert] succeeds, and the document it returns is the one [get] finds
    under the returned id in the state [insert] leaves; its body is the
    inserted body and [created] equals [updated]. *)
Theorem insert_then_get_round_trip (db : Db) (c : string)
    (ms : list (string * Json)) :
  collection_name c = true →
  storable (JObj ms) = true →
  db_ok db →
  (∃ t, tables db !! c = Some t ∧ next_id t ≤ serial_max)
  ∨ (free c db = true ∧ free (c +:+ "_body_idx") db = true) →
  ∃ r db' id,
    Database.insert (pg := Pg.query) c (JObj ms) db = (Ok (Some r), db')
    ∧ row_id r = Some id
    ∧ r !! "body" = Some (CJson (JObj ms))
    ∧ r !! "created" = r !! "updated"
    ∧ Database.get (pg := Pg.query) c id None db' = (Ok r, db').
Proof.
  intros Hc%collection_name_identifier _ Hdb Hcase.
  assert (Hget : ∀ t db0, table_ok (clock db) t →
            Database.get (pg := Pg.query) c (next_id t) None
              (set_table c (appended (JObj ms) (clock db) t) db0)
            = (Ok (document (fresh (JObj ms) (clock db) t)),
               set_table c (appended (JObj ms) (clock db) t) db0)).
  { intros t db0 (_ & Hdocs & _). rewrite (get_cases c _ _ Hc).
    cbn [tables set_table]. rewrite lookup_insert_eq.
    unfold with_id, appended. cbn [rows].
    rewrite filter_app_list.
    fold (with_id (next_id t) t). rewrite (with_id_none _ _ _ Hdocs).
    cbn. by rewrite Z.eqb_refl. }
  rewrite (insert_cases c ms db Hc).
  destruct Hcase as [(t & Ht & _)|[Hfree Hidx]].
  - rewrite Ht. eexists _, _, (next_id t).
    split; [reflexivity|]. split_and!; try reflexivity.
    apply Hget. by eapply db_ok_table.
  - rewrite (free_table c db Hfree), Hfree, Hidx.
    eexists _, _, 1. split; [reflexivity|]. split_and!; try reflexivity.
    apply (Hget new_table), table_ok_new.
Qed.

Lemma insert_then_get_round_trip_witness :
  collection_name "notes" = true
  ∧ storable (JObj [("k", JNum 7)]) = true
  ∧ db_ok Sample.db
  ∧ ((∃ t, tables Sample.db !! "notes" = Some t ∧ next_id t ≤ serial_max)
     ∨ (free "notes" Sample.db = true
        ∧ free ("notes" +:+ "_body_idx") Sample.db = true))
  ∧ ∃ r db' id,
      Database.insert (pg := Pg.query) "notes" (JObj [("k", JNum 7)])
        Sample.db = (Ok (Some r), db')
      ∧ row_id r = Some id
      ∧ Database.get (pg := Pg.query) "notes" id None db' = (Ok r, db').
Proof.
  assert (Hok : db_ok Sample.db)
    by (apply (bool_decide_unpack _); vm_compute; exact I).
  assert (Hcase : (∃ t, tables Sample.db !! "notes" = Some t
                        ∧ next_id t ≤ serial_max)
                  ∨ (free "notes" Sample.db = true
                     ∧ free ("notes" +:+ "_body_idx") Sample.db = true)).
  { left. exists Sample.notes. split; [reflexivity|].
    unfold serial_max. cbn. lia. }
  split; [reflexivity|]. split; [reflexivity|]. split; [exact Hok|].
  split; [exact Hcase|].
  destruct (insert_then_get_round_trip Sample.db "notes"
              [("k", JNum 7)] eq_refl eq_refl Hok Hcase)
    as (r & db' & id & Hins & Hid & _ & _ & Hget).
  exists r, db', id. split; [exact Hins|]. split; [exact Hid | exact Hget].
Defined.
End RoundTrips.

(** ** Reading, updating and searching on the reference database *)

Section ReadingAndSearching.
Import Pg Projection.

Local Instance id_le_is_transitive : Transitive id_le.
Proof. unfold id_le. intros x y z. lia. Qed.

Local Instance id_le_is_total : Total id_le.
Proof. unfold id_le. intros x y. lia. Qed.

Lemma queryCollection_state c params text db :
  (Database.queryCollection (pg := Pg.query) c params text db).2
  = (Pg.query text params db).2.
Proof.
  unfold Database.queryCollection, try_catch, pg_query.
  destruct (Pg.query text params db) as [[rows|e] db']; [done|].
  by destruct (code_differs e _).
Qed.

Lemma first_row_state c params text db :
  ((let* results := await Database.queryCollection (pg := Pg.query) c
                            params text in
    ret (first_or_null results)) db).2
  = (Pg.query text params db).2.
Proof.
  unfold bind. rewrite <- (queryCollection_state c).
  by destruct (Database.queryCollection c params text db) as [[rows|e] db'].
Qed.

Lemma strict_state c criteria (m : Async Db (option Row)) db :
  ((let* result := await m in
    match result with
    | None => throw (MissingRecordError c criteria)
    | Some r => ret r
    end) db).2 = (m db).2.
Proof. unfold bind. by destruct (m db) as [[[r|]|e] db']. Qed.

Lemma parse_tryGet c props :
  identifier c = true →
  from_option (Forall (λ q, quote_free q = true)) True props →
  parse (Statement.tryGet (propsToColumns props) c)
  = Some [SSelect (by_id props c)].
Proof.
  intros Hc Hq. destruct props as [props|];
    [by apply parse_tryGet_fields | by apply parse_tryGet_star].
Qed.

(** X10.  No read changes the reference database: after [all], [find],
    [tryGet], [get], [tryFindOne], [findOne] or the legacy [get], whether
    they return rows, recover from a missing table or fail, the database
    is what it was. *)
Theorem reads_leave_database_unchanged (db : Db) (c : string) (id : Z)
    (props : option (list string)) (criteria : Json) :
  identifier c = true →
  from_option (Forall (λ q, quote_free q = true)) True props →
  (Database.all (pg := Pg.query) c db).2 = db
  ∧ (Database.find (pg := Pg.query) c criteria db).2 = db
  ∧ (Database.tryGet (pg := Pg.query) c id props db).2 = db
  ∧ (Database.get (pg := Pg.query) c id props db).2 = db
  ∧ (Database.tryFindOne (pg := Pg.query) c criteria db).2 = db
  ∧ (Database.findOne (pg := Pg.query) c criteria db).2 = db
  ∧ (Legacy.get (pg := Pg.query) c id db).2 = db.
Proof.
  intros Hc Hq. split_and!.
  - unfold Database.all. rewrite queryCollection_state.
    exact (pg_select_keeps_db _ _ _ _ (parse_all c Hc)).
  - unfold Database.find. rewrite queryCollection_state.
    exact (pg_select_keeps_db _ _ _ _ (parse_find c Hc)).
  - unfold Database.tryGet. cbv zeta. rewrite first_row_state.
    exact (pg_select_keeps_db _ _ _ _ (parse_tryGet c props Hc Hq)).
  - unfold Database.get. rewrite strict_state.
    unfold Database.tryGet. cbv zeta. rewrite first_row_state.
    exact (pg_select_keeps_db _ _ _ _ (parse_tryGet c props Hc Hq)).
  - unfold Database.tryFindOne. rewrite first_row_state.
    exact (pg_select_keeps_db _ _ _ _ (parse_tryFindOne c Hc)).
  - unfold Database.findOne. rewrite strict_state.
    unfold Database.tryFindOne. rewrite first_row_state.
    exact (pg_select_keeps_db _ _ _ _ (parse_tryFindOne c Hc)).
  - unfold Legacy.get.
    change (@Legacy.queryCollection Db Pg.query)
      with (@Database.queryCollection Db Pg.query).
    rewrite first_row_state.
    exact (pg_select_keeps_db _ _ _ _ (parse_legacyGet c Hc)).
Qed.

Lemma reads_leave_database_unchanged_witness :
  identifier "notes" = true
  ∧ from_option (Forall (λ q, quote_free q = true)) True (Some ["b"])
  ∧ (Database.get (pg := Pg.query) "notes" 9 (Some ["b"]) Sample.db).2
    = Sample.db
  ∧ (Database.find (pg := Pg.query) "notes" (JNum 3) Sample.db).2
    = Sample.db.
Proof.
  assert (Hq : from_option (Forall (λ q, quote_free q = true)) True
                 (Some ["b"])) by (repeat constructor).
  split; [reflexivity|]. split; [exact Hq|].
  destruct (reads_leave_database_unchanged Sample.db "notes" 9 (Some ["b"])
              (JNum 3) eq_refl Hq) as (_ & Hfind & _ & Hget & _).
  split; [exact Hget | exact Hfind].
Defined.

Lemma filter_all_true {A} (f : A → bool) (l : list A) :
  Forall (λ x, f x = true) l → List.filter f l = l.
Proof.
  induction 1 as [|x l Hx _ IH]; [done|]. cbn. by rewrite Hx, IH.
Qed.

Lemma filter_none {A} (f : A → bool) (l : list A) :
  Forall (λ x, f x = false) l → List.filter f l = [].
Proof. induction 1 as [|x l Hx _ IH]; [done|]. cbn. by rewrite Hx. Qed.

(** X11.  On a well-formed database [find] with the empty criteria
    object returns exactly what [all] returns. *)
Theorem find_with_empty_criteria_is_all (db : Db) (c : string) :
  identifier c = true →
  db_ok db →
  Database.find (pg := Pg.query) c (JObj []) db
  = Database.all (pg := Pg.query) c db.
Proof.
  intros Hc Hdb.
  unfold Database.find, Database.all, Database.queryCollection, try_catch,
    pg_query.
  rewrite (pg_find c Hc), (pg_all c Hc).
  destruct (tables db !! c) as [t|] eqn:Ht; [|done].
  rewrite filter_all_true; [done|].
  destruct (db_ok_table db c t Hdb Ht) as (_ & Hdocs & _).
  eapply Forall_impl; [exact Hdocs|].
  intros d (_ & Hobj & _). unfold jsonb_contains. cbn.
  by destruct (doc_body d).
Qed.

Lemma find_with_empty_criteria_is_all_witness :
  identifier "notes" = true
  ∧ db_ok Sample.db
  ∧ Database.find (pg := Pg.query) "notes" (JObj []) Sample.db
    = Database.all (pg := Pg.query) "notes" Sample.db.
Proof.
  assert (Hok : db_ok Sample.db)
    by (apply (bool_decide_unpack _); vm_compute; exact I).
  split; [reflexivity|]. split; [exact Hok|].
  exact (find_with_empty_criteria_is_all Sample.db "notes" eq_refl Hok).
Defined.

(** X12.  On an existing collection [tryFindOne] and [find] agree on
    whether there is a match, and the document [tryFindOne] returns is
    one of those [find] returns.  It need not be the one with the lowest
    id: its statement has no ordering, so it is the first match in
    storage order. *)
Theorem tryFindOne_returns_a_find_result (db : Db) (c : string)
    (t : Table) (ms : list (string * Json)) :
  collection_name c = true →
  storable (JObj ms) = true →
  tables db !! c = Some t →
  match (Database.tryFindOne (pg := Pg.query) c (JObj ms) db).1,
        (Database.find (pg := Pg.query) c (JObj ms) db).1 with
  | Ok None, Ok rows => rows = []
  | Ok (Some r), Ok rows => r ∈ rows
  | _, _ => False
  end
  ∧ (Database.tryFindOne (pg := Pg.query) c (JObj ms) db).1
    = Ok (document <$> head (matching (JObj ms) t)).
Proof.
  intros Hc%collection_name_identifier _ Ht.
  unfold Database.tryFindOne, Database.find, Database.queryCollection,
    bind, try_catch, pg_query, ret.
  rewrite (pg_tryFindOne c Hc), (pg_find c Hc), Ht. cbn [fst].
  fold (matching (JObj ms) t).
  destruct (matching (JObj ms) t) as [|d ds] eqn:Hm; [done|].
  cbn [take fmap list_fmap first_or_null head option_fmap option_map fst].
  split; [|done].
  apply list_elem_of_fmap. exists d. split; [done|].
  rewrite merge_sort_Permutation. apply elem_of_cons. by left.
Qed.

Lemma tryFindOne_returns_a_find_result_witness :
  collection_name "notes" = true
  ∧ storable (JObj [("a", JNum 1)]) = true
  ∧ tables Sample.db !! "notes" = Some Sample.notes
  ∧ (Database.tryFindOne (pg := Pg.query) "notes" (JObj [("a", JNum 1)])
       Sample.db).1
    = Ok (Some (document Sample.second))
  ∧ (Database.find (pg := Pg.query) "notes" (JObj [("a", JNum 1)])
       Sample.db).1
    = Ok [document Sample.first; document Sample.second].
Proof.
  split; [reflexivity|]. split; [reflexivity|]. split; [reflexivity|].
  split.
  - exact (proj2 (tryFindOne_returns_a_find_result Sample.db "notes"
                    Sample.notes [("a", JNum 1)] eq_refl eq_refl eq_refl)).
  - vm_compute. reflexivity.
Defined.


End ReadingAndSearching.

(** ** Updating, listing and racing on the reference database *)

Section UpdatingAndListing.
Import Pg Projection.

Local Instance id_le_trans_inst : Transitive id_le.
Proof. unfold id_le. intros x y z. lia. Qed.

Local Instance id_le_total_inst : Total id_le.
Proof. unfold id_le. intros x y. lia. Qed.


Lemma with_id_unique t d :
  NoDup (doc_id <$> rows t) → d ∈ rows t → with_id (doc_id d) t = [d].
Proof.
  unfold with_id. induction (rows t) as [|x ds IH]; intros Hnd Hin.
  { by apply elem_of_nil in Hin. }
  rewrite fmap_cons in Hnd. apply NoDup_cons in Hnd as [Hx Hnd].
  cbn. apply elem_of_cons in Hin as [->|Hin].
  - rewrite Z.eqb_refl. f_equal. apply filter_none.
    apply Forall_forall. intros y Hy. apply Z.eqb_neq. intros Heq.
    apply Hx. rewrite <- Heq. apply list_elem_of_fmap. by exists y.
  - destruct (Z.eqb_spec (doc_id x) (doc_id d)) as [Heq|_]; [|by apply IH].
    exfalso. apply Hx. rewrite Heq. apply list_elem_of_fmap. by exists d.
Qed.




Lemma same_id_same_doc (ds : list Doc) (x y : Doc) :
  NoDup (doc_id <$> ds) → x ∈ ds → y ∈ ds → doc_id x = doc_id y → x = y.
Proof.
  induction ds as [|d ds IH]; intros Hnd Hx Hy Heq.
  { by apply elem_of_nil in Hx. }
  rewrite fmap_cons in Hnd. apply NoDup_cons in Hnd as [Hd Hnd].
  apply elem_of_cons in Hx as [->|Hx], Hy as [->|Hy]; [done| | |by apply IH].
  - exfalso. apply Hd. rewrite Heq. apply list_elem_of_fmap. by exists y.
  - exfalso. apply Hd. rewrite <- Heq. apply list_elem_of_fmap. by exists x.
Qed.

Lemma sort_appended now t ms :
  table_ok now t →
  merge_sort id_le (rows (appended (JObj ms) now t))
  = merge_sort id_le (rows t) ++ [fresh (JObj ms) now t].
Proof.
  intros Hok. pose proof (table_ok_appended now t ms Hok) as (_ & _ & Hnd).
  destruct Hok as (_ & Hdocs & _).
  apply (StronglySorted_unique_strong id_le).
  - intros x y Hx Hy Hxy Hyx.
    apply (same_id_same_doc (rows (appended (JObj ms) now t))); [done|..].
    + by rewrite <- (merge_sort_Permutation id_le).
    + unfold appended. cbn [rows].
      apply elem_of_app in Hy as [Hy|Hy]; apply elem_of_app; [left|by right].
      by rewrite <- (merge_sort_Permutation id_le).
    + unfold id_le in *. lia.
  - apply StronglySorted_merge_sort; apply _.
  - apply StronglySorted_app. split_and!.
    + intros x y Hx Hy. apply list_elem_of_singleton in Hy as ->.
      rewrite merge_sort_Permutation in Hx.
      rewrite Forall_forall in Hdocs. destruct (Hdocs x Hx) as (? & _).
      unfold id_le, fresh. cbn. lia.
    + apply StronglySorted_merge_sort; apply _.
    + repeat constructor.
  - rewrite !merge_sort_Permutation. done.
Qed.

(** X15.  On a well-formed database, [all] after an [insert] into an
    existing collection whose serial column has a value left returns what
    it returned before followed by the inserted document: the new
    document is listed last. *)
Theorem all_lists_inserted_document_last (db : Db) (c : string) (t : Table)
    (ms : list (string * Json)) :
  collection_name c = true →
  storable (JObj ms) = true →
  db_ok db →
  tables db !! c = Some t →
  next_id t ≤ serial_max →
  ∃ before r db',
    Database.all (pg := Pg.query) c db = (Ok before, db)
    ∧ Database.insert (pg := Pg.query) c (JObj ms) db = (Ok (Some r), db')
    ∧ Database.all (pg := Pg.query) c db' = (Ok (before ++ [r]), db').
Proof.
  intros Hc%collection_name_identifier _ Hdb Ht _.
  eexists _, _, _. split_and!.
  - unfold Database.all, Database.queryCollection, try_catch, pg_query.
    by rewrite (pg_all c Hc), Ht.
  - by rewrite (insert_cases c ms db Hc), Ht.
  - unfold Database.all, Database.queryCollection, try_catch, pg_query.
    rewrite (pg_all c Hc). cbn [tables set_table].
    rewrite lookup_insert_eq.
    rewrite (sort_appended _ _ _ (db_ok_table db c t Hdb Ht)).
    by rewrite fmap_app.
Qed.

Lemma all_lists_inserted_document_last_witness :
  collection_name "notes" = true
  ∧ storable (JObj []) = true
  ∧ db_ok Sample.db
  ∧ tables Sample.db !! "notes" = Some Sample.notes
  ∧ next_id Sample.notes ≤ serial_max
  ∧ ∃ before r db',
      Database.all (pg := Pg.query) "notes" Sample.db
        = (Ok before, Sample.db)
      ∧ Database.insert (pg := Pg.query) "notes" (JObj []) Sample.db
        = (Ok (Some r), db')
      ∧ Database.all (pg := Pg.query) "notes" db'
        = (Ok (before ++ [r]), db').
Proof.
  assert (Hok : db_ok Sample.db)
    by (apply (bool_decide_unpack _); vm_compute; exact I).
  assert (Hn : next_id Sample.notes ≤ serial_max)
    by (unfold serial_max; cbn; lia).
  split; [reflexivity|]. split; [reflexivity|]. split; [exact Hok|].
  split; [reflexivity|]. split; [exact Hn|].
  exact (all_lists_inserted_document_last Sample.db "notes" Sample.notes []
           eq_refl eq_refl Hok eq_refl Hn).
Defined.

(** X16.  To a reader a provisioned, empty collection and a missing one
    are the same: for a collection whose names are both free, every read
    returns the same result on the database before and after
    provisioning, the empty one. *)
Theorem missing_and_empty_collections_read_alike (db : Db) (c : string)
    (id : Z) (props : option (list string)) (ms : list (string * Json)) :
  collection_name c = true →
  from_option (λ ps, plain_fields ps = true) True props →
  storable (JObj ms) = true →
  free c db = true →
  free (c +:+ "_body_idx") db = true →
  (Database.all (pg := Pg.query) c (provisioned c db)).1
    = (Database.all (pg := Pg.query) c db).1
  ∧ (Database.find (pg := Pg.query) c (JObj ms) (provisioned c db)).1
    = (Database.find (pg := Pg.query) c (JObj ms) db).1
  ∧ (Database.tryGet (pg := Pg.query) c id props (provisioned c db)).1
    = (Database.tryGet (pg := Pg.query) c id props db).1
  ∧ (Database.get (pg := Pg.query) c id props (provisioned c db)).1
    = (Database.get (pg := Pg.query) c id props db).1
  ∧ (Database.tryFindOne (pg := Pg.query) c (JObj ms) (provisioned c db)).1
    = (Database.tryFindOne (pg := Pg.query) c (JObj ms) db).1
  ∧ (Database.findOne (pg := Pg.query) c (JObj ms) (provisioned c db)).1
    = (Database.findOne (pg := Pg.query) c (JObj ms) db).1
  ∧ (Database.all (pg := Pg.query) c db).1 = Ok []
  ∧ (Database.find (pg := Pg.query) c (JObj ms) db).1 = Ok []
  ∧ (Database.tryGet (pg := Pg.query) c id props db).1 = Ok None
  ∧ (Database.tryFindOne (pg := Pg.query) c (JObj ms) db).1 = Ok None.
Proof.
  intros Hc%collection_name_identifier Hp _ Ht%free_table _.
  assert (Hq : from_option (Forall (λ q, quote_free q = true)) True props).
  { destruct props as [ps|]; [|done]. by apply plain_fields_quote_free. }
  assert (Hnew : tables (provisioned c db) !! c = Some new_table).
  { cbn. apply lookup_insert_eq. }
  split_and!.
  - unfold Database.all, Database.queryCollection, try_catch, pg_query.
    by rewrite !(pg_all c Hc), Hnew, Ht.
  - unfold Database.find, Database.queryCollection, try_catch, pg_query.
    by rewrite !(pg_find c Hc), Hnew, Ht.
  - unfold Database.tryGet, Database.queryCollection, bind, try_catch,
      pg_query, ret.
    by rewrite !(pg_tryGet c Hc props id _ Hq), Hnew, Ht.
  - unfold Database.get, Database.tryGet, Database.queryCollection, bind,
      try_catch, pg_query, ret.
    by rewrite !(pg_tryGet c Hc props id _ Hq), Hnew, Ht.
  - unfold Database.tryFindOne, Database.queryCollection, bind, try_catch,
      pg_query, ret.
    by rewrite !(pg_tryFindOne c Hc), Hnew, Ht.
  - unfold Database.findOne, Database.tryFindOne, Database.queryCollection,
      bind, try_catch, pg_query, ret.
    by rewrite !(pg_tryFindOne c Hc), Hnew, Ht.
  - unfold Database.all, Database.queryCollection, try_catch, pg_query.
    by rewrite !(pg_all c Hc), Ht.
  - unfold Database.find, Database.queryCollection, try_catch, pg_query.
    by rewrite !(pg_find c Hc), Ht.
  - unfold Database.tryGet, Database.queryCollection, bind, try_catch,
      pg_query, ret.
    by rewrite !(pg_tryGet c Hc props id _ Hq), Ht.
  - unfold Database.tryFindOne, Database.queryCollection, bind, try_catch,
      pg_query, ret.
    by rewrite !(pg_tryFindOne c Hc), Ht.
Qed.

Lemma missing_and_empty_collections_read_alike_witness :
  collection_name "drafts" = true
  ∧ from_option (λ ps, plain_fields ps = true) True None
  ∧ storable (JObj []) = true
  ∧ free "drafts" Sample.db = true
  ∧ free ("drafts" +:+ "_body_idx") Sample.db = true
  ∧ (Database.get (pg := Pg.query) "drafts" 1 None
       (provisioned "drafts" Sample.db)).1
    = (Database.get (pg := Pg.query) "drafts" 1 None Sample.db).1.
Proof.
  split; [reflexivity|]. split; [exact I|]. split; [reflexivity|].
  split; [reflexivity|]. split; [reflexivity|].
  destruct (missing_and_empty_collections_read_alike Sample.db "drafts" 1
              None [] eq_refl I eq_refl eq_refl eq_refl)
    as (_ & _ & _ & Hget & _).
  exact Hget.
Defined.

(** X17.  Two sessions writing first into the same missing collection:
    when the other session's whole [insert] takes place right after this
    session's first attempt, this session's provisioning meets the
    existing table and its [insert] fails with [relation already exists];
    the other session's document is the only one stored. *)
Theorem racing_second_writer_fails (db : Db) (c : string)
    (mine theirs : list (string * Json)) :
  collection_name c = true →
  storable (JObj mine) = true →
  storable (JObj theirs) = true →
  free c db = true →
  free (c +:+ "_body_idx") db = true →
  Database.insert (pg := Racing.query) c (JObj mine)
    (db, [λ d, (Database.insert (pg := Pg.query) c (JObj theirs) d).2])
  = (Throw duplicate_table,
     ((Database.insert (pg := Pg.query) c (JObj theirs) db).2, []))
  ∧ tables (Database.insert (pg := Pg.query) c (JObj theirs) db).2 !! c
    = Some {| rows := [fresh (JObj theirs) (clock db) new_table];
              next_id := 2 |}.
Proof.
  intros Hc%collection_name_identifier _ _ Hfree Hidx.
  set (other := λ d, (Database.insert (pg := Pg.query) c (JObj theirs) d).2).
  change (Database.insert (pg := Pg.query) c (JObj theirs) db).2
    with (other db).
  assert (Hother : other db
            = set_table c (appended (JObj theirs) (clock db) new_table)
                (provisioned c db)).
  { unfold other.
    by rewrite (insert_cases c theirs db Hc), (free_table c db Hfree),
      Hfree, Hidx. }
  clearbody other. rewrite Hother.
  split; [|cbn; apply lookup_insert_eq].
  unfold Database.insert, Database.changeCollection,
    Database.createCollection, bind, try_catch, pg_query, ret, throw.
  unfold Racing.query at 1.
  rewrite (pg_insert c Hc). unfold exec_insert at 1.
  rewrite (free_table c db Hfree). cbn.
  rewrite Hother, (pg_createCollection c Hc).
  unfold relation_exists at 1. cbn [tables set_table].
  rewrite lookup_insert_eq.
  rewrite (bool_decide_eq_true_2 (is_Some (Some _))) by by eexists.
  done.
Qed.

Lemma racing_second_writer_fails_witness :
  collection_name "notes" = true
  ∧ storable (JObj [("a", JNum 2)]) = true
  ∧ storable (JObj [("a", JNum 1)]) = true
  ∧ free "notes" Pg.empty = true
  ∧ free ("notes" +:+ "_body_idx") Pg.empty = true
  ∧ (Database.insert (pg := Racing.query) "notes" (JObj [("a", JNum 2)])
       (Pg.empty,
        [λ d, (Database.insert (pg := Pg.query) "notes"
                 (JObj [("a", JNum 1)]) d).2])).1
    = Throw duplicate_table.
Proof.
  split; [reflexivity|]. split; [reflexivity|]. split; [reflexivity|].
  split; [reflexivity|]. split; [reflexivity|].
  exact (f_equal fst (proj1 (racing_second_writer_fails Pg.empty "notes"
           [("a", JNum 2)] [("a", JNum 1)] eq_refl eq_refl eq_refl eq_refl
           eq_refl))).
Defined.

(** X18.  For a collection name of lower-case letters and digits, the
    text of every statement the facade builds is one statement of the
    intended kind on that table (two for [createCollection]: the table,
    then its index), with the parameters it binds; a list of field names
    without quote, dollar sign and backslash becomes one
    [jsonb_build_object] call with a key and a member of [body] per
    name. *)
Theorem statements_parse_as_intended (c : string) (props : list string) :
  collection_name c = true →
  plain_fields props = true →
  parse (Statement.all c)
    = Some [SSelect {| sel_items := [IStar]; sel_table := c;
                       sel_where := None; sel_order := true;
                       sel_limit := None |}]
  ∧ parse (Statement.find c)
    = Some [SSelect {| sel_items := [IStar]; sel_table := c;
                       sel_where := Some (CContains "criteria");
                       sel_order := true; sel_limit := None |}]
  ∧ parse (Statement.tryFindOne c)
    = Some [SSelect {| sel_items := [IStar]; sel_table := c;
                       sel_where := Some (CContains "criteria");
                       sel_order := false; sel_limit := Some 1%nat |}]
  ∧ parse (Statement.tryGet (propsToColumns None) c)
    = Some [SSelect {| sel_items := [ICol "id"; ICol "created";
                                     ICol "updated"; IStar];
                       sel_table := c; sel_where := Some (CIdEq "id");
                       sel_order := false; sel_limit := Some 1%nat |}]
  ∧ parse (Statement.tryGet (propsToColumns (Some props)) c)
    = Some [SSelect {| sel_items :=
                         [ICol "id"; ICol "created"; ICol "updated";
                          ICall "jsonb_build_object"
                            (flat_map (λ p, [EStr p; EField "body" p]) props)
                            (Some "body")];
                       sel_table := c; sel_where := Some (CIdEq "id");
                       sel_order := false; sel_limit := Some 1%nat |}]
  ∧ parse (Statement.legacyGet c)
    = Some [SSelect {| sel_items := [IStar]; sel_table := c;
                       sel_where := Some (CIdEq "id");
                       sel_order := false; sel_limit := Some 1%nat |}]
  ∧ parse (Statement.insert c) = Some [SInsert c "body"]
  ∧ parse (Statement.update c) = Some [SUpdate c "body" "id"]
  ∧ parse (Statement.createCollection c)
    = Some [SCreateTable c; SCreateIndex (c +:+ "_body_idx") c].
Proof.
  intros Hc%collection_name_identifier Hq%plain_fields_quote_free.
  split_and!.
  - by apply parse_all.
  - by apply parse_find.
  - by apply parse_tryFindOne.
  - by apply parse_tryGet_star.
  - by apply parse_tryGet_fields.
  - by apply parse_legacyGet.
  - by apply parse_insert.
  - by apply parse_update.
  - by apply parse_createCollection.
Qed.

Lemma statements_parse_as_intended_witness :
  collection_name "notes" = true
  ∧ plain_fields ["x"] = true
  ∧ parse (Statement.insert "notes") = Some [SInsert "notes" "body"]
  ∧ parse (Statement.createCollection "notes")
    = Some [SCreateTable "notes"; SCreateIndex "notes_body_idx" "notes"].
Proof.
  split; [reflexivity|]. split; [reflexivity|].
  destruct (statements_parse_as_intended "notes" ["x"] eq_refl eq_refl)
    as (_ & _ & _ & _ & _ & _ & Hins & _ & Hcreate).
  split; [exact Hins | exact Hcreate].
Defined.
End UpdatingAndListing.

(** ** Listings and lookups agree *)

Section ListingsAndLookups.
Import Pg Projection.

Local Instance id_le_transitive_inst : Transitive id_le.
Proof. unfold id_le. intros x y z. lia. Qed.

Local Instance id_le_total_rel : Total id_le.
Proof. unfold id_le. intros x y. lia. Qed.


Lemma list_filter_elem_of {A} (f : A → bool) (l : list A) x :
  x ∈ List.filter f l ↔ x ∈ l ∧ f x = true.
Proof. by rewrite !list_elem_of_In, filter_In. Qed.






(** X20.  On a well-formed database [all] lists exactly the documents
    that [get] can fetch: a document is in the listing if and only if
    [get] returns it under some id. *)
Theorem all_lists_what_get_fetches (db : Db) (c : string) (t : Table) :
  identifier c = true →
  db_ok db →
  tables db !! c = Some t →
  ∃ listed,
    Database.all (pg := Pg.query) c db = (Ok listed, db)
    ∧ ∀ r, r ∈ listed
           ↔ ∃ id, Database.get (pg := Pg.query) c id None db = (Ok r, db).
Proof.
  intros Hc Hdb Ht. eexists. split.
  { unfold Database.all, Database.queryCollection, try_catch, pg_query.
    by rewrite (pg_all c Hc), Ht. }
  destruct (db_ok_table db c t Hdb Ht) as (_ & _ & Hnd).
  intros r. rewrite list_elem_of_fmap. split.
  - intros (d & -> & Hd). rewrite merge_sort_Permutation in Hd.
    exists (doc_id d). rewrite (get_cases c _ _ Hc), Ht.
    by rewrite (with_id_unique t d Hnd Hd).
  - intros (id & Hget). rewrite (get_cases c _ _ Hc), Ht in Hget.
    destruct (with_id id t) as [|d ds] eqn:Hw; [done|].
    injection Hget as <-. exists d. split; [done|].
    rewrite merge_sort_Permutation.
    assert (d ∈ with_id id t) as Hin by (rewrite Hw; apply elem_of_cons; by left).
    unfold with_id in Hin. by apply list_filter_elem_of in Hin as [? _].
Qed.

Lemma all_lists_what_get_fetches_witness :
  identifier "notes" = true
  ∧ db_ok Sample.db
  ∧ tables Sample.db !! "notes" = Some Sample.notes
  ∧ ∃ listed,
      Database.all (pg := Pg.query) "notes" Sample.db = (Ok listed, Sample.db)
      ∧ ∀ r, r ∈ listed
             ↔ ∃ id, Database.get (pg := Pg.query) "notes" id None Sample.db
                     = (Ok r, Sample.db).
Proof.
  assert (Hok : db_ok Sample.db)
    by (apply (bool_decide_unpack _); vm_compute; exact I).
  split; [reflexivity|]. split; [exact Hok|]. split; [reflexivity|].
  exact (all_lists_what_get_fetches Sample.db "notes" Sample.notes
           eq_refl Hok eq_refl).
Defined.


End ListingsAndLookups.
